(** * The OpenClaw voice loop ([voice_loop.py]): a shallow embedding

    Microphone -> Whisper -> OpenClaw agent -> text-to-speech -> speaker.

    Part I embeds the program: Python text and JSON values, the two
    process-wide counters, the file system and the effects of the external
    commands, then every function of [voice_loop.py] in source order.
    Part II states and proves the properties of the embedding.

    Conventions.
    - A Python [str] is a list of 8-bit characters; [int] is [Z]; the
      floating-point quantities (loudness, clock readings, durations) are
      idealised as rationals [Q].
    - What the outside world answers (a subprocess result, the frames the
      microphone delivers, what Whisper returns) is an explicit argument
      of the function that asks for it.
    - Exceptions are values: a call either returns or raises. *)

From Stdlib Require Import ZArith QArith Qminmax Ascii String List Bool Lia.
From stdpp Require Import gmap strings.
Import ListNotations.

Local Open Scope Z_scope.

(* ================================================================== *)
(** * Part I: the embedding                                            *)
(* ================================================================== *)

(** ** Python text *)

Module Str.

(** A Python [str]. *)
Definition str := list ascii.

(** A literal. *)
Definition lit (s : string) : str := list_ascii_of_string s.

(** [len(s)]. *)
Definition len (s : str) : Z := Z.of_nat (length s).

(** [s.startswith(prefix)]. *)
Fixpoint startswith (prefix s : str) : bool :=
  match prefix, s with
  | [], _ => true
  | _ :: _, [] => false
  | p :: prefix', c :: s' => Ascii.eqb p c && startswith prefix' s'
  end.

(** [sub in s]. *)
Fixpoint contains (sub s : str) : bool :=
  match s with
  | [] => startswith sub []
  | _ :: s' => startswith sub s || contains sub s'
  end.

(** [s[:n]]: a negative bound counts from the end. *)
Definition slice_to (n : Z) (s : str) : str :=
  if n <? 0 then firstn (Z.to_nat (len s + n)) s else firstn (Z.to_nat n) s.

(** The scan behind [replace]: [skip] characters of an occurrence that
    started earlier are still to be dropped; occurrences are found from
    left to right and do not overlap. *)
Fixpoint replace_scan (old new : str) (skip : nat) (s : str) : str :=
  match s with
  | [] => []
  | c :: s' =>
      match skip with
      | S k => replace_scan old new k s'
      | O =>
          if startswith old s
          then new ++ replace_scan old new (length old - 1) s'
          else c :: replace_scan old new O s'
      end
  end.

(** [s.replace(old, new)]; with an empty [old], [new] goes before every
    character and at the end. *)
Definition replace (old new s : str) : str :=
  match old with
  | [] => flat_map (fun c => new ++ [c]) s ++ new
  | _ :: _ => replace_scan old new O s
  end.

(** The scan behind [rfind]: [i] is the index of the head of [s], [last]
    the highest index seen so far at which [sub] starts. *)
Fixpoint rfind_scan (sub s : str) (i last : Z) : Z :=
  match s with
  | [] => if startswith sub [] then i else last
  | _ :: s' => rfind_scan sub s' (i + 1) (if startswith sub s then i else last)
  end.

(** [s.rfind(sub)]: the highest index at which [sub] starts, [-1] if none. *)
Definition rfind (sub s : str) : Z := rfind_scan sub s 0 (-1).

(** [c.isspace()] on the 8-bit range. *)
Definition isspace (c : ascii) : bool :=
  let n := nat_of_ascii c in
  ((9 <=? n) && (n <=? 13) || (28 <=? n) && (n <=? 32)
   || (n =? 133) || (n =? 160))%nat.

(** [s.lstrip()]. *)
Fixpoint lstrip (s : str) : str :=
  match s with
  | [] => []
  | c :: s' => if isspace c then lstrip s' else s
  end.

(** [s.strip()]. *)
Definition strip (s : str) : str := rev (lstrip (rev (lstrip s))).

(** [c.lower()] on the 8-bit range: the letters A-Z, and the capitals
    from U+00C0 to U+00DE but for the multiplication sign U+00D7. *)
Definition lower_char (c : ascii) : ascii :=
  let n := nat_of_ascii c in
  if ((65 <=? n) && (n <=? 90)
      || (192 <=? n) && (n <=? 222) && negb (n =? 215))%nat
  then ascii_of_nat (n + 32) else c.

(** [s.lower()]. *)
Definition lower (s : str) : str := map lower_char s.

(** [sep.join(parts)]. *)
Fixpoint join (sep : str) (parts : list str) : str :=
  match parts with
  | [] => []
  | [p] => p
  | p :: rest => p ++ sep ++ join sep rest
  end.

(** [s[i]] for an index [i >= 0]; [None] outside the string. *)
Definition item (s : str) (i : Z) : option ascii :=
  if i <? 0 then None else nth_error s (Z.to_nat i).

(** [a == b]. *)
Definition eqb (a b : str) : bool := bool_decide (a = b).

(** [x in xs] for a list of strings. *)
Definition mem (x : str) (xs : list str) : bool := existsb (eqb x) xs.

(** Truth value of a string: non-empty. *)
Definition truthy (s : str) : bool :=
  match s with [] => false | _ :: _ => true end.

End Str.

Abbreviation str := Str.str.

(** ** Exceptions and outcomes *)

(** The exception classes ([Exception] subclasses) the program meets.
    [KeyboardInterrupt] is not an [Exception]; it is an event of the turn
    loop (see [turn]). *)
Inductive exn : Type :=
  | TimeoutExpired
  | JSONDecodeError
  | KeyError
  | IndexError
  | AttributeError
  | TypeError
  | ValueError
  | FileNotFoundError
  | OSError
  | RuntimeError
  | RecursionError
  | UnicodeEncodeError.

(** What a call does: it returns a value, raises, or never comes back
    (the recorder waiting for frames that do not end the utterance). *)
Inductive outcome (A : Type) : Type :=
  | Returned (a : A)
  | Raised (e : exn)
  | Hangs.

Arguments Returned {A} a.
Arguments Raised {A} e.
Arguments Hangs {A}.

(** Sequencing of two steps that touch no state. *)
Definition and_then {A B} (o : outcome A) (k : A -> outcome B) : outcome B :=
  match o with
  | Returned a => k a
  | Raised e => Raised e
  | Hangs => Hangs
  end.

Declare Scope py_scope.
Delimit Scope py_scope with py.
Notation "x <~ o ;; k" := (and_then o (fun x => k))
  (at level 100, o at next level, right associativity) : py_scope.

(** ** JSON values, as [json.loads] builds them *)

#[warnings="-register-all"] Inductive json : Type :=
  | JNull
  | JBool (b : bool)
  | JNum (q : Q)
  | JStr (s : str)
  | JArr (items : list json)
  | JObj (fields : list (str * json)).

Module Py.

(** Lookup in a [dict]. *)
Fixpoint lookup (key : str) (fields : list (str * json)) : option json :=
  match fields with
  | [] => None
  | (k, v) :: rest => if Str.eqb key k then Some v else lookup key rest
  end.

(** [v.get(key, default)]: only a [dict] has the method. *)
Definition get (v : json) (key : str) (default : json) : outcome json :=
  match v with
  | JObj fields =>
      Returned (match lookup key fields with Some x => x | None => default end)
  | _ => Raised AttributeError
  end.

(** [for p in v]: a list gives its items, a dict its keys, a string its
    characters; nothing else is iterable. *)
Definition iter (v : json) : outcome (list json) :=
  match v with
  | JArr items => Returned items
  | JObj fields => Returned (map (fun kv => JStr (fst kv)) fields)
  | JStr s => Returned (map (fun c => JStr [c]) s)
  | _ => Raised TypeError
  end.

(** Truth value of [v]. *)
Definition truthy (v : json) : bool :=
  match v with
  | JNull => false
  | JBool b => b
  | JNum q => negb (Qeq_bool q 0)
  | JStr s => Str.truthy s
  | JArr items => match items with [] => false | _ :: _ => true end
  | JObj fields => match fields with [] => false | _ :: _ => true end
  end.

(** [" ".join(parts)]: every part must be a [str]. *)
Fixpoint strings (parts : list json) : outcome (list str) :=
  match parts with
  | [] => Returned []
  | JStr s :: rest => and_then (strings rest) (fun ss => Returned (s :: ss))
  | _ :: _ => Raised TypeError
  end.

Definition join (sep : str) (parts : list json) : outcome str :=
  and_then (strings parts) (fun ss => Returned (Str.join sep ss)).

End Py.

(** ** Configuration (read once from the environment) *)

Record config : Type := {
  ELEVENLABS_API_KEY : str;
  ELEVENLABS_SPEED : Q;
  OPENAI_API_KEY : str;
  MAX_TURNS : Z
}.

Definition SAMPLE_RATE : Z := 16000.
Definition SILENCE_DURATION : Q := 3 # 2.
Definition MIN_SPEECH_DURATION : Q := 1 # 2.
Definition MAX_REPLY_CHARS : Z := 500.

(** The preamble put before the user's words. Its one character outside
    the 8-bit range, the dash U+2014 of rule 3, is held as the three bytes
    of its UTF-8 form, as it reaches the command line of the agent; the
    program does not look into the preamble. *)
Definition VOICE_HINT : str :=
  Str.lit "[VOICE MODE] You are in a live voice conversation. The caller handles TTS playback. RULES: 1) Reply with 1-3 SHORT spoken sentences as plain text. 2) No markdown, no bullets, no code, no lists. 3) Do NOT use the tts tool — the caller handles audio. 4) Do NOT use tools unless absolutely necessary. 5) ALWAYS produce a text reply. User said: ".

(** ** Process state and the effect monad *)

Inductive backend : Type := ElevenLabs | OpenAI.

(** What the program does to the outside world, in order. [Listen]
    carries the two counters as they are when [record_utterance] is
    entered. *)
Inductive action : Type :=
  | Listen (turns errors : Z)
  | LoadModel
  | Whisper (path : string)
  | Agent (message : str)
  | Curl (b : backend) (path : string)
  | Ffmpeg (src dst : string)
  | Afplay (path : string)
  | Say (text : str).

(** The globals [turn_count], [consecutive_errors], [whisper_model]
    (loaded or still [None]), the files on disk with their sizes, and the
    actions performed so far. *)
Record state : Type := {
  turn_count : Z;
  consecutive_errors : Z;
  whisper_model : bool;
  files : gmap string N;
  log : list action
}.

Definition M (A : Type) : Type := state -> outcome A * state.

Definition ret {A} (a : A) : M A := fun st => (Returned a, st).

Definition raise {A} (e : exn) : M A := fun st => (Raised e, st).

Definition bind {A B} (c : M A) (k : A -> M B) : M B :=
  fun st =>
    match c st with
    | (Returned a, st') => k a st'
    | (Raised e, st') => (Raised e, st')
    | (Hangs, st') => (Hangs, st')
    end.

(** [try: c  except <classes accepted by handles>: handler]. *)
Definition try_except {A} (c : M A) (handles : exn -> bool) (handler : exn -> M A) : M A :=
  fun st =>
    match c st with
    | (Raised e, st') => if handles e then handler e st' else (Raised e, st')
    | other => other
    end.

(** [try: c  finally: cleanup]. *)
Definition try_finally {A} (c : M A) (cleanup : M unit) : M A :=
  fun st =>
    match c st with
    | (Hangs, st') => (Hangs, st')
    | (r, st') =>
        match cleanup st' with
        | (Returned _, st'') => (r, st'')
        | (Raised e, st'') => (Raised e, st'')
        | (Hangs, st'') => (Hangs, st'')
        end
    end.

Definition lift {A} (o : outcome A) : M A := fun st => (o, st).

Definition get_state : M state := fun st => (Returned st, st).

Definition emit (a : action) : M unit :=
  fun st =>
    (Returned tt,
     {| turn_count := turn_count st; consecutive_errors := consecutive_errors st;
        whisper_model := whisper_model st; files := files st;
        log := log st ++ [a] |}).

Definition set_counters (t e : Z) : M unit :=
  fun st =>
    (Returned tt,
     {| turn_count := t; consecutive_errors := e;
        whisper_model := whisper_model st; files := files st; log := log st |}).

Definition set_whisper_model (b : bool) : M unit :=
  fun st =>
    (Returned tt,
     {| turn_count := turn_count st; consecutive_errors := consecutive_errors st;
        whisper_model := b; files := files st; log := log st |}).

Definition set_files (f : gmap string N) : M unit :=
  fun st =>
    (Returned tt,
     {| turn_count := turn_count st; consecutive_errors := consecutive_errors st;
        whisper_model := whisper_model st; files := f; log := log st |}).

(** [consecutive_errors += 1]. *)
Definition count_error : M unit :=
  fun st => set_counters (turn_count st) (consecutive_errors st + 1) st.

(** [os.unlink(p)]: a missing file raises [FileNotFoundError]. *)
Definition unlink (p : string) : M unit :=
  fun st =>
    match files st !! p with
    | Some _ => set_files (delete p (files st)) st
    | None => (Raised FileNotFoundError, st)
    end.

Notation "x <- c ;; k" := (bind c (fun x => k))
  (at level 100, c at next level, right associativity) : py_scope.
Notation "c ;; k" := (bind c (fun _ => k))
  (at level 100, right associativity) : py_scope.

(** The [Exception] subclasses an [except] clause accepts. *)
Definition any_exception (e : exn) : bool := true.

Definition is_TimeoutExpired (e : exn) : bool :=
  match e with TimeoutExpired => true | _ => false end.

(** [JSONDecodeError] (a [ValueError]), [KeyError], [IndexError]. *)
Definition is_parse_error (e : exn) : bool :=
  match e with JSONDecodeError | KeyError | IndexError => true | _ => false end.

(** [OSError] and its subclass [FileNotFoundError]. *)
Definition is_OSError (e : exn) : bool :=
  match e with OSError | FileNotFoundError => true | _ => false end.

Local Open Scope py_scope.

(** ** [calibrate_mic] *)

(** Python's [max(a, b)]: [b] when [b > a], otherwise [a]. *)
Definition py_max (a b : Q) : Q := if Qle_bool b a then a else b.

(** The noise floor below which the threshold never goes. *)
Definition THRESHOLD_FLOOR : Q := 5 # 1000.

(** [calibrate_mic]: [rms] is [np.sqrt(np.mean(audio ** 2))] of the second
    of ambient sound just recorded. *)
Definition calibrate_mic (rms : Q) : Q :=
  let threshold := (rms * 3)%Q in
  py_max threshold THRESHOLD_FLOOR.

(** ** [record_utterance] *)

(** One [stream.read(chunk_size)]: the samples, their loudness
    [np.sqrt(np.mean(data ** 2))], and what [time.time()] reads while the
    frame is handled. *)
Record frame : Type := {
  data : list Q;
  rms : Q;
  now : Q
}.

(** [a > b] on rationals. *)
Definition Qgt_bool (a b : Q) : bool := negb (Qle_bool a b).

(** The [while True] loop over the frames the stream delivers. The result
    is [None] while the loop has not reached its [break]. *)
Fixpoint record_loop (threshold : Q) (stream : list frame)
    (audio_chunks : list (list Q)) (speech_started : bool)
    (silence_start : option Q) : option (list (list Q)) :=
  match stream with
  | [] => None
  | f :: rest =>
      if Qgt_bool (rms f) threshold then
        record_loop threshold rest (audio_chunks ++ [data f]) true None
      else if speech_started then
        match silence_start with
        | None =>
            record_loop threshold rest (audio_chunks ++ [data f]) true (Some (now f))
        | Some t0 =>
            if Qgt_bool (now f - t0)%Q SILENCE_DURATION
            then Some audio_chunks
            else record_loop threshold rest (audio_chunks ++ [data f]) true silence_start
        end
      else
        record_loop threshold rest audio_chunks false silence_start
  end.

(** [np.concatenate(chunks)]: an empty list of arrays is a [ValueError]. *)
Definition concatenate (chunks : list (list Q)) : outcome (list Q) :=
  match chunks with
  | [] => Raised ValueError
  | _ :: _ => Returned (concat chunks)
  end.

(** [len(audio) / SAMPLE_RATE]. *)
Definition duration (audio : list Q) : Q :=
  (inject_Z (Z.of_nat (length audio)) / inject_Z SAMPLE_RATE)%Q.

Definition record_utterance (threshold : Q) (stream : list frame)
  : M (option (list Q)) :=
  st <- get_state ;;
  emit (Listen (turn_count st) (consecutive_errors st)) ;;
  match record_loop threshold stream [] false None with
  | None => lift Hangs
  | Some audio_chunks =>
      audio <- lift (concatenate audio_chunks) ;;
      if Qgt_bool MIN_SPEECH_DURATION (duration audio) then ret None
      else ret (Some audio)
  end.

(** ** [transcribe] *)

(** What the Whisper library does during one call: loading the model may
    fail, the temporary file gets [tmp] as its name, and
    [whisper_model.transcribe] returns the value of [result["text"]] or
    raises. *)
Record whisper_world : Type := {
  load_model : option exn;
  tmp : string;
  engine : exn + str
}.

(** Size of the WAV file written for [audio]: a 44-byte header and two
    bytes per sample. *)
Definition wav_size (audio : list Q) : N := N.of_nat (44 + 2 * length audio).

Definition transcribe (w : whisper_world) (audio : list Q) : M str :=
  st <- get_state ;;
  (if whisper_model st then ret tt
   else
     emit LoadModel ;;
     match load_model w with
     | Some e => raise e
     | None => set_whisper_model true
     end) ;;
  st <- get_state ;;
  set_files (<[tmp w := wav_size audio]> (files st)) ;;
  emit (Whisper (tmp w)) ;;
  match engine w with
  | inl e => raise e
  | inr text =>
      unlink (tmp w) ;;
      ret (Str.strip text)
  end.

(** ** [ask_agent] *)

(** What the outside world does during one call of [ask_agent].
    [subprocess.run] raises, or the process completes with an exit status,
    with [json.loads(stdout)] ([None] when that raises [JSONDecodeError])
    and its standard error. [Unreadable]: the process completes and
    [json.loads(stdout)] raises [e], an exception of another class than
    [JSONDecodeError] ([ValueError] for an integer of too many digits,
    [RecursionError] for nesting too deep). [Unprintable]: the process
    completes with exit status 0 and the [print] of the reply raises [e]
    ([UnicodeEncodeError] for a reply that holds a lone surrogate). *)
Inductive run_result : Type :=
  | RunRaised (e : exn)
  | Completed (returncode : Z) (stdout_json : option json) (stderr : str)
  | Unreadable (returncode : Z) (e : exn) (stderr : str)
  | Unprintable (stdout_json : option json) (e : exn) (stderr : str).

(** [reply[:MAX_REPLY_CHARS]], cut after its last period when that lies
    past the middle, else followed by an ellipsis. *)
Definition truncate (reply : str) : str :=
  if Str.len reply >? MAX_REPLY_CHARS then
    let truncated := Str.slice_to MAX_REPLY_CHARS reply in
    let last_period := Str.rfind (Str.lit ".") truncated in
    if last_period >? MAX_REPLY_CHARS / 2
    then Str.slice_to (last_period + 1) truncated
    else truncated ++ Str.lit "..."
  else reply.

Definition MARKDOWN : list str :=
  [Str.lit "**"; Str.lit "```"; Str.lit "`"; Str.lit "- "; Str.lit "* "].

(** [for ch in MARKDOWN: reply = reply.replace(ch, '')]. *)
Definition strip_markdown (reply : str) : str :=
  fold_left (fun r ch => Str.replace ch [] r) MARKDOWN reply.

(** [[p.get('text', '') for p in payloads if p.get('text')]]. *)
Fixpoint reply_parts (payloads : list json) : outcome (list json) :=
  match payloads with
  | [] => Returned []
  | p :: rest =>
      t <~ Py.get p (Str.lit "text") JNull ;;
      if Py.truthy t then
        x <~ Py.get p (Str.lit "text") (JStr []) ;;
        xs <~ reply_parts rest ;;
        Returned (x :: xs)
      else reply_parts rest
  end.

(** [json.loads(result.stdout)] when it returns or raises
    [JSONDecodeError]. *)
Definition loads (stdout_json : option json) : outcome json :=
  match stdout_json with
  | Some data => Returned data
  | None => Raised JSONDecodeError
  end.

(** The body of the second [try] up to the computation of [reply];
    [decoded] is what [json.loads(result.stdout)] does. *)
Definition read_reply (decoded : outcome json) : outcome str :=
  data <~ decoded ;;
  result <~ Py.get data (Str.lit "result") (JObj []) ;;
  payloads <~ Py.get result (Str.lit "payloads") (JArr []) ;;
  ps <~ Py.iter payloads ;;
  parts <~ reply_parts ps ;;
  joined <~ Py.join (Str.lit " ") parts ;;
  Returned (Str.strip joined).

Definition parse_reply (stdout_json : option json) : outcome str :=
  read_reply (loads stdout_json).

Definition TOO_LONG : str := Str.lit "Sorry, that took too long. Try again.".
Definition HIT_ERROR : str := Str.lit "Sorry, I hit an error. Try again.".
Definition NOTHING_TO_SAY : str := Str.lit "I processed that but had nothing to say.".
Definition PARSE_ERROR : str := Str.lit "Sorry, something went wrong parsing the response.".

(** [ask_agent]. Each [try] yields [inl] for a value the function
    returns from inside it, [inr] for what the code after it goes on
    with: the exit status, what [json.loads] does, and what the [print] of
    the reply raises, if anything. *)
Definition ask_agent (run : run_result) (text : str) : M str :=
  let message := VOICE_HINT ++ text in
  r <- try_except
         (emit (Agent message) ;;
          match run with
          | RunRaised e => raise e
          | Completed rc out err => ret (inr (rc, loads out, None))
          | Unreadable rc e err => ret (inr (rc, Raised e, None))
          | Unprintable out e err => ret (inr (0, loads out, Some e))
          end)
         is_TimeoutExpired
         (fun _ => count_error ;; ret (inl TOO_LONG)) ;;
  match r with
  | inl early => ret early
  | inr (returncode, decoded, unprintable) =>
      if negb (returncode =? 0) then
        count_error ;; ret HIT_ERROR
      else
        r <- try_except
               (reply <- lift (read_reply decoded) ;;
                if negb (Str.truthy reply)
                then count_error ;; ret (inl NOTHING_TO_SAY)
                else ret (inr reply))
               is_parse_error
               (fun _ => count_error ;; ret (inl PARSE_ERROR)) ;;
        match r with
        | inl early => ret early
        | inr reply =>
            let reply := truncate reply in
            let reply := strip_markdown reply in
            st <- get_state ;;
            set_counters (turn_count st + 1) 0 ;;
            match unprintable with
            | Some e => raise e
            | None => ret reply
            end
        end
  end.

(** ** Speech synthesis *)

(** What one external command does: it may raise (a timeout, a missing
    executable) and it may leave an output file of some size. *)
Record proc : Type := {
  proc_raises : option exn;
  proc_writes : option N
}.

(** The outside world during one [speak]: the two names
    [tempfile.mktemp] hands out, and what [curl], [ffmpeg], [afplay] and
    [say] do. *)
Record tts_world : Type := {
  raw_path : string;
  fast_path : string;
  curl : proc;
  ffmpeg : proc;
  afplay : option exn;
  say : option exn
}.

(** [subprocess.run] of a command writing to [path]. *)
Definition run_proc (a : action) (p : proc) (path : string) : M unit :=
  emit a ;;
  st <- get_state ;;
  match proc_writes p with
  | Some size => set_files (<[path := size]> (files st))
  | None => ret tt
  end ;;
  match proc_raises p with
  | Some e => raise e
  | None => ret tt
  end.

(** [subprocess.run] of a command that writes no file. *)
Definition run_cmd (a : action) (raises : option exn) : M unit :=
  emit a ;;
  match raises with
  | Some e => raise e
  | None => ret tt
  end.

(** [not os.path.exists(path) or os.path.getsize(path) < bound]. *)
Definition missing_or_smaller (path : string) (bound : N) (st : state) : bool :=
  match files st !! path with
  | None => true
  | Some size => (size <? bound)%N
  end.

(** [os.path.exists(path) and os.path.getsize(path) > bound]. *)
Definition exists_and_larger (path : string) (bound : N) (st : state) : bool :=
  match files st !! path with
  | None => false
  | Some size => (bound <? size)%N
  end.

(** [try: os.unlink(p)  except OSError: pass]. *)
Definition unlink_quietly (p : string) : M unit :=
  try_except (unlink p) is_OSError (fun _ => ret tt).

Definition speak_macos (w : tts_world) (text : str) : M unit :=
  try_except (run_cmd (Say text) (say w)) any_exception (fun _ => ret tt).

Definition speak_elevenlabs (cfg : config) (w : tts_world) (text : str) : M unit :=
  try_finally
    (try_except
       (run_proc (Curl ElevenLabs (raw_path w)) (curl w) (raw_path w) ;;
        st <- get_state ;;
        if missing_or_smaller (raw_path w) 1000 st then
          speak_macos w text
        else
          play_path <-
            (if negb (Qeq_bool (ELEVENLABS_SPEED cfg) 1) then
               run_proc (Ffmpeg (raw_path w) (fast_path w)) (ffmpeg w) (fast_path w) ;;
               st <- get_state ;;
               if exists_and_larger (fast_path w) 500 st
               then ret (fast_path w) else ret (raw_path w)
             else ret (raw_path w)) ;;
          run_cmd (Afplay play_path) (afplay w))
       any_exception
       (fun _ => speak_macos w text))
    (unlink_quietly (raw_path w) ;; unlink_quietly (fast_path w)).

Definition speak_openai (w : tts_world) (text : str) : M unit :=
  try_finally
    (try_except
       (run_proc (Curl OpenAI (raw_path w)) (curl w) (raw_path w) ;;
        st <- get_state ;;
        if missing_or_smaller (raw_path w) 1000 st then
          speak_macos w text
        else
          run_cmd (Afplay (raw_path w)) (afplay w))
       any_exception
       (fun _ => speak_macos w text))
    (unlink_quietly (raw_path w)).

Definition speak (cfg : config) (w : tts_world) (text : str) : M unit :=
  if Str.truthy (ELEVENLABS_API_KEY cfg) then speak_elevenlabs cfg w text
  else if Str.truthy (OPENAI_API_KEY cfg) then speak_openai w text
  else speak_macos w text.

(** ** [main] *)

(** The transcripts Whisper is known to produce on near-silent input. *)
Definition HALLUCINATIONS : list str :=
  [[]; Str.lit "you"; Str.lit "thank you."; Str.lit "thanks for watching!";
   Str.lit "thanks for watching."; Str.lit "thank you for watching.";
   Str.lit "bye."; Str.lit "bye"; Str.lit "the end."; Str.lit "hmm."].

(** [not text or text.lower().strip() in HALLUCINATIONS]. *)
Definition ignored (text : str) : bool :=
  negb (Str.truthy text) || Str.mem (Str.strip (Str.lower text)) HALLUCINATIONS.

(** The outside world during one iteration of the loop. [interrupt]: the
    user presses Ctrl-C while the recorder listens. *)
Record turn : Type := {
  interrupt : bool;
  stream : list frame;
  whisper : whisper_world;
  agent : run_result;
  tts : tts_world
}.

(** How an iteration ends: [continue] (or the end of the body), or
    [break]. *)
Inductive flow : Type := Continue | Break.

(** The two [if]s at the top of the loop body. *)
Definition reset_checks (cfg : config) : M unit :=
  st <- get_state ;;
  (if turn_count st >=? MAX_TURNS cfg then set_counters 0 0 else ret tt) ;;
  st <- get_state ;;
  (if consecutive_errors st >=? 3 then set_counters 0 0 else ret tt).

(** The body of the [try] inside the loop. *)
Definition turn_body (cfg : config) (threshold : Q) (t : turn) : M unit :=
  reset_checks cfg ;;
  audio <- record_utterance threshold (stream t) ;;
  match audio with
  | None => ret tt
  | Some audio =>
      text <- transcribe (whisper t) audio ;;
      if ignored text then ret tt
      else
        reply <- ask_agent (agent t) text ;;
        speak cfg (tts t) reply
  end.

(** One iteration: the [try] with its two handlers. The interrupt is
    delivered once the recorder has started listening. *)
Definition iteration (cfg : config) (threshold : Q) (t : turn) : M flow :=
  if interrupt t then
    reset_checks cfg ;;
    st <- get_state ;;
    emit (Listen (turn_count st) (consecutive_errors st)) ;;
    ret Break
  else
    try_except
      (turn_body cfg threshold t ;; ret Continue)
      any_exception
      (fun _ => count_error ;; ret Continue).

(** The [while True] loop over the turns the outside world provides. It
    returns when a turn breaks out of it; when the turns run out the loop
    is still waiting for the next one. *)
Fixpoint turn_loop (cfg : config) (threshold : Q) (turns : list turn) : M unit :=
  match turns with
  | [] => lift Hangs
  | t :: rest =>
      f <- iteration cfg threshold t ;;
      match f with
      | Break => ret tt
      | Continue => turn_loop cfg threshold rest
      end
  end.

(** [np.zeros(SAMPLE_RATE)]: one second of silence. *)
Definition silence : list Q := repeat 0%Q (Z.to_nat SAMPLE_RATE).

(** [main]: calibration, the priming transcription of one second of
    silence, then the loop. *)
Definition main (cfg : config) (ambient_rms : Q) (prime : whisper_world)
    (turns : list turn) : M unit :=
  let threshold := calibrate_mic ambient_rms in
  transcribe prime silence ;;
  turn_loop cfg threshold turns.

(** ** Vocabulary of the statements *)

(** [p] is the index of the last period among the first [MAX_REPLY_CHARS]
    characters of [reply]; [None] when there is no period there. *)
Definition last_period_is (reply : str) (p : option Z) : Prop :=
  match p with
  | Some i =>
      0 <= i < MAX_REPLY_CHARS /\ Str.item reply i = Some "."%char /\
      forall j, i < j < MAX_REPLY_CHARS -> Str.item reply j <> Some "."%char
  | None =>
      forall j, 0 <= j < MAX_REPLY_CHARS -> Str.item reply j <> Some "."%char
  end.

(** The hard cut: the first [MAX_REPLY_CHARS] characters and an ellipsis. *)
Definition hard_cut (reply : str) : str :=
  Str.slice_to MAX_REPLY_CHARS reply ++ Str.lit "...".


(** The state [ask_agent text] leaves behind when it handles the outcome
    itself: the command was run, and the counters are [t] and [e]. *)
Definition asked (text : str) (st : state) (t e : Z) : state :=
  {| turn_count := t; consecutive_errors := e;
     whisper_model := whisper_model st; files := files st;
     log := log st ++ [Agent (VOICE_HINT ++ text)] |}.

(** The frames from the first speech frame on. *)
Fixpoint from_speech (threshold : Q) (stream : list frame) : list frame :=
  match stream with
  | [] => []
  | f :: rest =>
      if Qgt_bool (rms f) threshold then f :: rest else from_speech threshold rest
  end.

(** [f] can end a recording: a silence frame read more than
    [SILENCE_DURATION] after some start [t0] of the silence timer. *)
Definition closing (threshold : Q) (f : frame) : Prop :=
  Qgt_bool (rms f) threshold = false /\
  exists t0, Qgt_bool (now f - t0)%Q SILENCE_DURATION = true.

(** The Whisper model is loaded already, or loads without error. *)
Definition model_available (w : whisper_world) (st : state) : Prop :=
  whisper_model st = true \/ load_model w = None.

(** The backend [speak] selects: the first cloud provider whose key is
    set, [None] for the local command. *)
Definition chosen (cfg : config) : option backend :=
  if Str.truthy (ELEVENLABS_API_KEY cfg) then Some ElevenLabs
  else if Str.truthy (OPENAI_API_KEY cfg) then Some OpenAI
  else None.

(** The cloud providers asked, in order. *)
Fixpoint requests (acts : list action) : list backend :=
  match acts with
  | [] => []
  | Curl b _ :: rest => b :: requests rest
  | _ :: rest => requests rest
  end.

(** The texts handed to the local [say] command, in order. *)
Fixpoint says (acts : list action) : list str :=
  match acts with
  | [] => []
  | Say text :: rest => text :: says rest
  | _ :: rest => says rest
  end.

(** The files played, in order. *)
Fixpoint plays (acts : list action) : list string :=
  match acts with
  | [] => []
  | Afplay path :: rest => path :: plays rest
  | _ :: rest => plays rest
  end.

(** The size of the file at [raw_path] once [curl] is done; [None] when
    there is no such file. *)
Definition response_size (w : tts_world) (st : state) : option N :=
  match proc_writes (curl w) with
  | Some size => Some size
  | None => files st !! raw_path w
  end.

(** The cloud request ran, and its audio file is missing or smaller than
    1000 bytes. *)
Definition response_undersized (w : tts_world) (st : state) : Prop :=
  proc_raises (curl w) = None /\
  match response_size w st with
  | None => True
  | Some size => (size < 1000)%N
  end.

(** Nothing goes wrong in the cloud backend: the request and the
    re-encoding run, the audio file has at least 1000 bytes, and the
    player runs. *)
Definition healthy (w : tts_world) (st : state) : Prop :=
  proc_raises (curl w) = None /\
  (exists size, response_size w st = Some size /\ (1000 <= size)%N) /\
  proc_raises (ffmpeg w) = None /\
  afplay w = None.

(** [record_utterance] being entered. *)
Definition is_listen (a : action) : bool :=
  match a with Listen _ _ => true | _ => false end.

(** The agent call and everything the synthesis does. *)
Definition is_response (a : action) : bool :=
  match a with
  | Agent _ | Curl _ _ | Ffmpeg _ _ | Afplay _ | Say _ => true
  | _ => false
  end.

(** Every time the recorder was entered, fewer than [MAX_TURNS] turns and
    fewer than 3 consecutive errors were counted. *)
Definition listen_ok (cfg : config) (a : action) : Prop :=
  match a with
  | Listen turns errors => turns < MAX_TURNS cfg /\ errors < 3
  | _ => True
  end.

(** The state in which the recorder is entered: [st] after the reset
    checks. *)
Definition checked (cfg : config) (st : state) : state :=
  snd (reset_checks cfg st).

(** The iteration discards its input: the recorder returns [None], or the
    transcript is empty or a known hallucination. *)
Definition discards (cfg : config) (threshold : Q) (t : turn) (st : state) : Prop :=
  match record_utterance threshold (stream t) (checked cfg st) with
  | (Returned None, _) => True
  | (Returned (Some audio), st') =>
      match fst (transcribe (whisper t) audio st') with
      | Returned text => ignored text = true
      | _ => False
      end
  | _ => False
  end.

(** An external command raised. *)
Definition raised (o : option exn) : bool :=
  match o with Some _ => true | None => false end.

(** The cloud backend [b] fails: the request raises or leaves a missing or
    undersized file, the re-encoding (ElevenLabs at a speed other than
    1.0) raises, or the player raises. *)
Definition cloud_failed (cfg : config) (b : backend) (w : tts_world) (st : state)
  : bool :=
  raised (proc_raises (curl w))
  || match response_size w st with
     | None => true
     | Some size => (size <? 1000)%N
     end
  || match b with
     | ElevenLabs =>
         negb (Qeq_bool (ELEVENLABS_SPEED cfg) 1) && raised (proc_raises (ffmpeg w))
     | OpenAI => false
     end
  || raised (afplay w).

(** The counters with which the recorder was entered, in order. *)
Fixpoint listens (acts : list action) : list (Z * Z) :=
  match acts with
  | [] => []
  | Listen turns errors :: rest => (turns, errors) :: listens rest
  | _ :: rest => listens rest
  end.

(** ** Sample inputs *)

(** The process at start-up: both counters at zero, no model loaded, no
    temporary file, nothing done yet. *)
Definition initial_state : state :=
  {| turn_count := 0; consecutive_errors := 0; whisper_model := false;
     files := ∅; log := [] |}.

(** Agent output of the expected shape,
    [{"result": {"payloads": [{"text": t}, ...]}}]. *)
Definition agent_output (texts : list str) : option json :=
  Some (JObj [(Str.lit "result",
               JObj [(Str.lit "payloads",
                      JArr (map (fun t => JObj [(Str.lit "text", JStr t)]) texts))])]).

(** A 600-character reply whose only period is at index 480. *)
Definition reply_600 : str :=
  repeat "a"%char 480 ++ "."%char :: repeat "b"%char 119.

(** The threshold after calibration in a quiet room. *)
Definition quiet_room : Q := calibrate_mic (1 # 100).

(** A 100 ms frame of 1600 equal samples, read at [t] tenths of a second. *)
Definition tone (level : Q) (t : Z) : frame :=
  {| data := repeat level 1600; rms := level; now := t # 10 |}.

(** Half a second of speech, then silence: the silence timer starts at
    0.6 s, 1.5 s have passed at 2.1 s, and the frame at 2.2 s ends the
    recording. *)
Definition spoken_then_silent : list frame :=
  map (tone (1 # 10)) [1; 2; 3; 4; 5]
  ++ map (tone (1 # 1000)) [6; 7; 8; 9; 10; 11; 12; 13; 14; 15; 16; 17; 18; 19; 20; 21].

Definition closing_frame : frame := tone (2 # 1000) 22.

(** Whisper failing on its input. *)
Definition failing_whisper : whisper_world :=
  {| load_model := None; tmp := "/tmp/tmpk3v9.wav"; engine := inl RuntimeError |}.

(** ElevenLabs answering with an empty file. *)
Definition only_elevenlabs : config :=
  {| ELEVENLABS_API_KEY := Str.lit "sk-elevenlabs"; ELEVENLABS_SPEED := 1;
     OPENAI_API_KEY := []; MAX_TURNS := 50 |}.

Definition empty_response : tts_world :=
  {| raw_path := "/tmp/tmpa1.mp3"; fast_path := "/tmp/tmpa2.mp3";
     curl := {| proc_raises := None; proc_writes := Some 0%N |};
     ffmpeg := {| proc_raises := None; proc_writes := None |};
     afplay := None; say := None |}.

(** The default configuration: no cloud key, 50 turns. *)
Definition default_config : config :=
  {| ELEVENLABS_API_KEY := []; ELEVENLABS_SPEED := 1; OPENAI_API_KEY := [];
     MAX_TURNS := 50 |}.

(** [MAX_TURNS=0] in the environment. *)
Definition zero_turns : config :=
  {| ELEVENLABS_API_KEY := []; ELEVENLABS_SPEED := 1; OPENAI_API_KEY := [];
     MAX_TURNS := 0 |}.

(** Whisper hearing [text]. *)
Definition hearing (text : str) : whisper_world :=
  {| load_model := None; tmp := "/tmp/tmpk3v9.wav"; engine := inr text |}.

(** A burst of noise: one loud frame, then silence until the recording
    ends at 1.8 s; 0.2 s are kept. *)
Definition cough : list frame :=
  [tone (1 # 10) 1; tone (1 # 1000) 2; tone (1 # 1000) 18].

Definition cough_turn : turn :=
  {| interrupt := false; stream := cough; whisper := hearing (Str.lit "you");
     agent := Completed 0 (agent_output [Str.lit "Hello."]) [];
     tts := empty_response |}.

(** Speech that Whisper hears as a stock phrase. *)
Definition thanks_turn : turn :=
  {| interrupt := false; stream := spoken_then_silent ++ [closing_frame];
     whisper := hearing (Str.lit " Thank you.");
     agent := Completed 0 (agent_output [Str.lit "Hello."]) [];
     tts := empty_response |}.

(** Seven turns into a conversation, after three failures in a row. *)
Definition after_three_errors : state :=
  {| turn_count := 7; consecutive_errors := 3; whisper_model := true;
     files := ∅; log := [] |}.

(** [MAX_TURNS=2] in the environment. *)
Definition two_turns : config :=
  {| ELEVENLABS_API_KEY := []; ELEVENLABS_SPEED := 1; OPENAI_API_KEY := [];
     MAX_TURNS := 2 |}.

(** Half a second of speech, silence from 0.6 s on, closed at 2.2 s. *)
Definition brief_speech : list frame :=
  map (tone (1 # 10)) [1; 2; 3; 4; 5] ++ [tone (1 # 1000) 6; closing_frame].

(** A question the agent answers. *)
Definition weather_turn : turn :=
  {| interrupt := false; stream := brief_speech;
     whisper := hearing (Str.lit " What's the weather?");
     agent := Completed 0 (agent_output [Str.lit "It's sunny"; Str.lit "and 70 degrees."]) [];
     tts := empty_response |}.

(** A question on which the agent times out. *)
Definition timeout_turn : turn :=
  {| interrupt := false; stream := brief_speech;
     whisper := hearing (Str.lit " What's the weather?");
     agent := RunRaised TimeoutExpired;
     tts := empty_response |}.

(** Three answered questions, three timeouts, one more answered question. *)
Definition busy_run : list turn :=
  [weather_turn; weather_turn; weather_turn;
   timeout_turn; timeout_turn; timeout_turn; weather_turn].

(** Seven turns into a conversation, after two failures in a row. *)
Definition after_two_errors : state :=
  {| turn_count := 7; consecutive_errors := 2; whisper_model := true;
     files := ∅; log := [] |}.

(** The request to ElevenLabs timing out. *)
Definition request_timeout : tts_world :=
  {| raw_path := "/tmp/tmpa1.mp3"; fast_path := "/tmp/tmpa2.mp3";
     curl := {| proc_raises := Some TimeoutExpired; proc_writes := None |};
     ffmpeg := {| proc_raises := None; proc_writes := None |};
     afplay := None; say := None |}.


(** Only an OpenAI key is configured. *)
Definition only_openai : config :=
  {| ELEVENLABS_API_KEY := []; ELEVENLABS_SPEED := 1;
     OPENAI_API_KEY := Str.lit "sk-openai"; MAX_TURNS := 50 |}.

(** The request delivers 20000 bytes of audio and the player plays them. *)
Definition good_player : tts_world :=
  {| raw_path := "/tmp/tmpa1.mp3"; fast_path := "/tmp/tmpa2.mp3";
     curl := {| proc_raises := None; proc_writes := Some 20000%N |};
     ffmpeg := {| proc_raises := None; proc_writes := None |};
     afplay := None; say := None |}.

(** The request delivers 20000 bytes of audio, and [afplay] is missing. *)
Definition broken_player : tts_world :=
  {| raw_path := "/tmp/tmpa1.mp3"; fast_path := "/tmp/tmpa2.mp3";
     curl := {| proc_raises := None; proc_writes := Some 20000%N |};
     ffmpeg := {| proc_raises := None; proc_writes := None |};
     afplay := Some FileNotFoundError; say := None |}.
(** ** Further vocabulary and sample inputs *)


(** Both counters are within their limits. *)
Definition in_bounds (cfg : config) (st : state) : Prop :=
  0 <= turn_count st <= MAX_TURNS cfg /\ 0 <= consecutive_errors st <= 3.

(** The Whisper model being loaded. *)
Definition is_load (a : action) : bool :=
  match a with LoadModel => true | _ => false end.

(** ElevenLabs at 1.25 times the speed. *)
Definition brisk_elevenlabs : config :=
  {| ELEVENLABS_API_KEY := Str.lit "sk-elevenlabs"; ELEVENLABS_SPEED := 5 # 4;
     OPENAI_API_KEY := []; MAX_TURNS := 50 |}.

(** A request answered with 24000 bytes of audio, re-encoded to 19000. *)
Definition good_response : tts_world :=
  {| raw_path := "/tmp/tmpb1.mp3"; fast_path := "/tmp/tmpb2.mp3";
     curl := {| proc_raises := None; proc_writes := Some 24000%N |};
     ffmpeg := {| proc_raises := None; proc_writes := Some 19000%N |};
     afplay := None; say := None |}.

(* ================================================================== *)
(** * Part II: properties                                              *)
(* ================================================================== *)

(** ** Text *)

Section StrFacts.

Example replace_is_greedy :
  Str.replace (Str.lit "**") [] (Str.lit "a**b***c") = Str.lit "ab*c".
Proof. reflexivity. Qed.

Example replace_does_not_rescan :
  Str.replace (Str.lit "* ") [] (Str.lit "**  ") = Str.lit "* ".
Proof. reflexivity. Qed.

Example rfind_highest : Str.rfind (Str.lit ".") (Str.lit "a.b.c") = 3.
Proof. reflexivity. Qed.

Example rfind_absent : Str.rfind (Str.lit ".") (Str.lit "abc") = -1.
Proof. reflexivity. Qed.

Example strip_both_ends : Str.strip (Str.lit "  a b  ") = Str.lit "a b".
Proof. reflexivity. Qed.

Lemma startswith_char (c x : ascii) (s : str) :
  Str.startswith [c] (x :: s) = Ascii.eqb c x.
Proof. simpl. apply andb_true_r. Qed.

Lemma replace_scan_shrinks (old : str) (s : str) :
  forall skip, (length (Str.replace_scan old [] skip s) <= length s)%nat.
Proof.
  induction s as [|c s IH]; intros skip; simpl; [lia|].
  destruct skip as [|k].
  - destruct (Str.startswith old (c :: s)); simpl.
    + specialize (IH (length old - 1)%nat). lia.
    + specialize (IH O). lia.
  - specialize (IH k). lia.
Qed.

Lemma replace_empty_old (s : str) : Str.replace [] [] s = s.
Proof.
  unfold Str.replace. rewrite app_nil_r.
  induction s as [|c s IH]; simpl in *; [reflexivity | now f_equal].
Qed.

Lemma replace_shrinks (old s : str) :
  (length (Str.replace old [] s) <= length s)%nat.
Proof.
  destruct old as [|o old].
  - rewrite replace_empty_old. lia.
  - apply replace_scan_shrinks.
Qed.

Lemma strip_markdown_shrinks (s : str) :
  (length (strip_markdown s) <= length s)%nat.
Proof.
  unfold strip_markdown, MARKDOWN. cbn [fold_left].
  repeat (etransitivity; [apply replace_shrinks|]). lia.
Qed.

(** Where the scan of [rfind] for a single character ends. *)
Lemma rfind_scan_char (c : ascii) (s : str) :
  forall i last,
    (Str.rfind_scan [c] s i last = last /\
     forall k, nth_error s k <> Some c)
    \/ (exists k, Str.rfind_scan [c] s i last = i + Z.of_nat k /\
          nth_error s k = Some c /\
          forall j, (k < j)%nat -> nth_error s j <> Some c).
Proof.
  induction s as [|x s IH]; intros i last.
  - left. split; [reflexivity|]. intros [|k]; discriminate.
  - cbn [Str.rfind_scan]. rewrite startswith_char.
    destruct (IH (i + 1) (if Ascii.eqb c x then i else last))
      as [[Hr Hno] | (k & Hr & Hk & Hafter)].
    + destruct (Ascii.eqb_spec c x) as [->|Hne].
      * right. exists O. split; [rewrite Hr; lia|]. split; [reflexivity|].
        intros [|j] Hj; [lia|]. apply Hno.
      * left. split; [exact Hr|]. intros [|k]; simpl; [congruence | apply Hno].
    + right. exists (S k). split; [rewrite Hr; lia|]. split; [exact Hk|].
      intros [|j] Hj; [lia|]. simpl. apply Hafter. lia.
Qed.

Lemma item_slice_to (s : str) (n i : Z) :
  0 <= i < n -> Str.item (Str.slice_to n s) i = Str.item s i.
Proof.
  intros Hi. unfold Str.item, Str.slice_to.
  destruct (Z.ltb_spec n 0); [lia|].
  destruct (Z.ltb_spec i 0); [lia|].
  rewrite nth_error_firstn.
  destruct (Nat.ltb_spec (Z.to_nat i) (Z.to_nat n)); [reflexivity | lia].
Qed.


(** ** Truncation *)

Lemma no_period_in_range (s : str) (lo hi : Z) :
  0 <= lo ->
  forallb (fun c => negb (Ascii.eqb c "."))
          (firstn (Z.to_nat (hi - lo)) (skipn (Z.to_nat lo) s)) = true ->
  forall j, lo <= j < hi -> Str.item s j <> Some "."%char.
Proof.
  intros Hlo Hall j Hj Hdot. unfold Str.item in Hdot.
  destruct (Z.ltb_spec j 0); [lia|].
  rewrite forallb_forall in Hall.
  assert (Hin : In "."%char (firstn (Z.to_nat (hi - lo)) (skipn (Z.to_nat lo) s))).
  { apply (nth_error_In _ (Z.to_nat (j - lo))).
    rewrite nth_error_firstn.
    destruct (Nat.ltb_spec (Z.to_nat (j - lo)) (Z.to_nat (hi - lo))); [|lia].
    rewrite nth_error_skipn. rewrite <- Hdot. f_equal. lia. }
  apply Hall in Hin. discriminate.
Qed.

Lemma truncate_bound (reply : str) :
  Str.len (truncate reply) <= MAX_REPLY_CHARS + 3.
Proof.
  unfold truncate.
  destruct (Z.gtb_spec (Str.len reply) MAX_REPLY_CHARS) as [Hlen|Hlen]; [|lia].
  assert (Hcut : Str.len (Str.slice_to MAX_REPLY_CHARS reply) <= MAX_REPLY_CHARS).
  { unfold Str.len, Str.slice_to, MAX_REPLY_CHARS. change (500 <? 0) with false.
    cbv iota. rewrite length_firstn. lia. }
  destruct (_ >? _).
  - unfold Str.slice_to at 1. unfold Str.len in *.
    destruct (_ <? 0); rewrite length_firstn; lia.
  - unfold Str.len in *. rewrite length_app.
    change (length (Str.lit "...")) with 3%nat. lia.
Qed.

Lemma slice_to_length (s : str) :
  Str.len s > MAX_REPLY_CHARS ->
  length (Str.slice_to MAX_REPLY_CHARS s) = Z.to_nat MAX_REPLY_CHARS.
Proof.
  unfold Str.len, Str.slice_to, MAX_REPLY_CHARS. intros H.
  change (500 <? 0) with false. cbv iota.
  rewrite length_firstn. lia.
Qed.

Lemma rfind_last_period (reply : str) (p : option Z) :
  Str.len reply > MAX_REPLY_CHARS ->
  last_period_is reply p ->
  Str.rfind (Str.lit ".") (Str.slice_to MAX_REPLY_CHARS reply)
  = match p with Some i => i | None => -1 end.
Proof.
  intros Hlen Hp.
  pose proof (slice_to_length reply Hlen) as Hcut.
  assert (Hitem : forall k, nth_error (Str.slice_to MAX_REPLY_CHARS reply) k
                    = Str.item (Str.slice_to MAX_REPLY_CHARS reply) (Z.of_nat k)).
  { intros k. unfold Str.item. destruct (Z.ltb_spec (Z.of_nat k) 0); [lia|].
    now rewrite Nat2Z.id. }
  assert (Hin : forall k c, nth_error (Str.slice_to MAX_REPLY_CHARS reply) k = Some c ->
                  0 <= Z.of_nat k < MAX_REPLY_CHARS).
  { intros k c Hk. assert (k < length (Str.slice_to MAX_REPLY_CHARS reply))%nat
      by (apply nth_error_Some; congruence). lia. }
  unfold Str.rfind. change (Str.lit ".") with ["."%char].
  destruct (rfind_scan_char "." (Str.slice_to MAX_REPLY_CHARS reply) 0 (-1))
    as [[Hr Hno] | (k & Hr & Hk & Hafter)]; rewrite Hr.
  - destruct p as [i|]; [|reflexivity].
    destruct Hp as (Hi & Hdot & _). exfalso. apply (Hno (Z.to_nat i)).
    rewrite Hitem, Z2Nat.id by lia. now rewrite item_slice_to.
  - pose proof (Hin _ _ Hk) as Hk500.
    rewrite Hitem, item_slice_to in Hk by lia.
    destruct p as [i|].
    + destruct Hp as (Hi & Hdot & Hlast).
      destruct (Z.lt_trichotomy (Z.of_nat k) i) as [Hlt | [Heq | Hgt]].
      * exfalso. apply (Hafter (Z.to_nat i)); [lia|].
        rewrite Hitem, Z2Nat.id by lia. now rewrite item_slice_to.
      * lia.
      * exfalso. now apply (Hlast (Z.of_nat k)).
    + exfalso. now apply (Hp (Z.of_nat k)).
Qed.

(** C3. A reply over the 500-character budget is cut right after the last
    period of its first 500 characters when that period lies past index
    250 (a period at index 480 leaves the first 481 characters);
    otherwise it becomes the first 500 characters and an ellipsis. *)
Theorem truncate_cuts_at_last_period (reply : str) (p : option Z) :
  Str.len reply > MAX_REPLY_CHARS ->
  last_period_is reply p ->
  truncate reply =
    match p with
    | Some i => if i >? MAX_REPLY_CHARS / 2 then Str.slice_to (i + 1) reply
                else hard_cut reply
    | None => hard_cut reply
    end.
Proof.
  intros Hlen Hp. unfold truncate, hard_cut.
  destruct (Z.gtb_spec (Str.len reply) MAX_REPLY_CHARS) as [_|]; [|lia].
  rewrite (rfind_last_period reply p Hlen Hp).
  destruct p as [i|]; [|reflexivity].
  destruct (Z.gtb_spec i (MAX_REPLY_CHARS / 2)) as [Hi|]; [|reflexivity].
  destruct Hp as (Hr & _). unfold Str.slice_to at 1 3.
  destruct (Z.ltb_spec (i + 1) 0); [lia|].
  unfold Str.slice_to, MAX_REPLY_CHARS in *. change (500 <? 0) with false. cbv iota.
  rewrite firstn_firstn. f_equal. lia.
Qed.

Lemma truncate_cuts_at_last_period_witness :
  Str.len reply_600 > MAX_REPLY_CHARS /\ truncate reply_600 = Str.slice_to (480 + 1) reply_600.
Proof.
  assert (H : Str.len reply_600 > MAX_REPLY_CHARS) by reflexivity.
  split; [exact H|].
  apply (truncate_cuts_at_last_period reply_600 (Some 480) H).
  split; [unfold MAX_REPLY_CHARS; lia|]. split; [reflexivity|].
  intros j Hj. apply (no_period_in_range reply_600 481 MAX_REPLY_CHARS); [lia | reflexivity | lia].
Defined.


(** ** Markdown stripping *)

Lemma replace_scan_absent (old s : str) :
  Str.contains old s = false -> Str.replace_scan old [] 0 s = s.
Proof.
  induction s as [|c s IH]; intros H; [reflexivity|].
  cbn [Str.contains] in H. apply orb_false_iff in H as [Hhd Htl].
  cbn [Str.replace_scan]. rewrite Hhd. f_equal. now apply IH.
Qed.

Lemma replace_absent (old s : str) :
  Str.contains old s = false -> Str.replace old [] s = s.
Proof.
  destruct old as [|o old]; intros H.
  - apply replace_empty_old.
  - now apply replace_scan_absent.
Qed.

Lemma replace_scan_keeps_out (c : ascii) (old s : str) :
  ~ In c s -> forall skip, ~ In c (Str.replace_scan old [] skip s).
Proof.
  induction s as [|x s IH]; intros Hout skip; [exact Hout|].
  cbn [Str.replace_scan].
  assert (Hs : ~ In c s) by (intros Hin; apply Hout; now right).
  destruct skip as [|k]; [|now apply IH].
  destruct (Str.startswith old (x :: s)); [now apply IH|].
  intros [->|Hin]; [apply Hout; now left | now apply (IH Hs O)].
Qed.

Lemma replace_keeps_out (c : ascii) (old s : str) :
  ~ In c s -> ~ In c (Str.replace old [] s).
Proof.
  destruct old as [|o old]; intros H.
  - now rewrite replace_empty_old.
  - now apply replace_scan_keeps_out.
Qed.

Lemma replace_char_removes (c : ascii) (s : str) :
  ~ In c (Str.replace [c] [] s).
Proof.
  unfold Str.replace.
  induction s as [|x s IH]; [intros []|].
  cbn [Str.replace_scan]. rewrite startswith_char.
  destruct (Ascii.eqb_spec c x) as [->|Hne]; [exact IH|].
  intros [->|Hin]; [congruence | now apply IH].
Qed.

Lemma contains_needs_head (c : ascii) (rest s : str) :
  ~ In c s -> Str.contains (c :: rest) s = false.
Proof.
  induction s as [|x s IH]; intros Hout; [reflexivity|].
  cbn [Str.contains Str.startswith].
  destruct (Ascii.eqb_spec c x) as [->|Hne]; [exfalso; apply Hout; now left|].
  apply IH. intros Hin. apply Hout. now right.
Qed.

Lemma strip_markdown_eq (s : str) :
  strip_markdown s =
  Str.replace (Str.lit "* ") []
    (Str.replace (Str.lit "- ") []
       (Str.replace (Str.lit "`") []
          (Str.replace (Str.lit "```") []
             (Str.replace (Str.lit "**") [] s)))).
Proof. reflexivity. Qed.

Lemma strip_markdown_no_backtick (s : str) : ~ In "`"%char (strip_markdown s).
Proof.
  rewrite strip_markdown_eq. do 2 apply replace_keeps_out.
  apply replace_char_removes.
Qed.

(** C6, amended. Stripping twice equals stripping once whenever the
    once-stripped text contains none of the sequences "**", "- " and
    "* "; a backtick never survives one stripping. *)
Theorem strip_markdown_idempotent_when_clean (s : str) :
  Str.contains (Str.lit "**") (strip_markdown s) = false ->
  Str.contains (Str.lit "- ") (strip_markdown s) = false ->
  Str.contains (Str.lit "* ") (strip_markdown s) = false ->
  strip_markdown (strip_markdown s) = strip_markdown s.
Proof.
  intros Hbold Hdash Hstar.
  pose proof (strip_markdown_no_backtick s) as Htick.
  rewrite (strip_markdown_eq (strip_markdown s)).
  rewrite (replace_absent (Str.lit "**")) by exact Hbold.
  rewrite (replace_absent (Str.lit "```")) by now apply contains_needs_head.
  rewrite (replace_absent (Str.lit "`")) by now apply contains_needs_head.
  rewrite (replace_absent (Str.lit "- ")) by exact Hdash.
  now apply replace_absent.
Qed.

Lemma strip_markdown_idempotent_when_clean_witness :
  strip_markdown (strip_markdown (Str.lit "**Hello** `world`, - again"))
  = strip_markdown (Str.lit "**Hello** `world`, - again").
Proof.
  apply strip_markdown_idempotent_when_clean; reflexivity.
Defined.

(** C6 as stated fails: removing the backtick of "*`*" forms "**",
    which only a second stripping removes. *)
Lemma strip_markdown_not_idempotent :
  strip_markdown (Str.lit "*`*") = Str.lit "**" /\
  strip_markdown (strip_markdown (Str.lit "*`*")) = [] /\
  strip_markdown (strip_markdown (Str.lit "*`*")) <> strip_markdown (Str.lit "*`*").
Proof. split; [reflexivity | split; [reflexivity | discriminate]]. Qed.

End StrFacts.

(** ** The agent client *)

Section AgentFacts.

Variables (text : str) (st : state).

#[local] Abbreviation asked := (asked text st).

Ltac run_ask_agent :=
  unfold ask_agent, asked;
  cbv [bind try_except emit ret raise lift get_state set_counters count_error
       is_TimeoutExpired is_parse_error negb Z.eqb];
  cbn [turn_count consecutive_errors whisper_model files log].

Lemma ask_agent_timeout :
  ask_agent (RunRaised TimeoutExpired) text st
  = (Returned TOO_LONG, asked (turn_count st) (consecutive_errors st + 1)).
Proof. reflexivity. Qed.

Lemma ask_agent_failed (returncode : Z) (out : option json) (err : str) :
  returncode <> 0 ->
  ask_agent (Completed returncode out err) text st
  = (Returned HIT_ERROR, asked (turn_count st) (consecutive_errors st + 1)).
Proof.
  intros Hrc. unfold ask_agent, asked.
  cbv [bind try_except emit ret raise lift get_state set_counters count_error
       is_TimeoutExpired].
  cbn [turn_count consecutive_errors whisper_model files log].
  destruct (Z.eqb_spec returncode 0); [contradiction | reflexivity].
Qed.

Lemma ask_agent_empty (out : option json) (err : str) :
  parse_reply out = Returned [] ->
  ask_agent (Completed 0 out err) text st
  = (Returned NOTHING_TO_SAY, asked (turn_count st) (consecutive_errors st + 1)).
Proof.
  intros Hparse. unfold parse_reply in Hparse.
  run_ask_agent. rewrite Hparse. reflexivity.
Qed.

Lemma ask_agent_undecodable (err : str) :
  ask_agent (Completed 0 None err) text st
  = (Returned PARSE_ERROR, asked (turn_count st) (consecutive_errors st + 1)).
Proof. reflexivity. Qed.

Lemma ask_agent_success (out : option json) (err reply : str) :
  parse_reply out = Returned reply -> reply <> [] ->
  ask_agent (Completed 0 out err) text st
  = (Returned (strip_markdown (truncate reply)), asked (turn_count st + 1) 0).
Proof.
  intros Hparse Hne. unfold parse_reply in Hparse. run_ask_agent. rewrite Hparse.
  destruct reply as [|c reply]; [congruence | reflexivity].
Qed.

(** An exception of [subprocess.run] other than the timeout (the
    [openclaw] command is not installed, say) is not handled. *)
Lemma ask_agent_run_error (e : exn) :
  e <> TimeoutExpired ->
  ask_agent (RunRaised e) text st
  = (Raised e, asked (turn_count st) (consecutive_errors st)).
Proof. intros He. destruct e; try contradiction; reflexivity. Qed.

(** C1. The claim fails on output that is valid JSON of another shape: a
    top-level array has no [get], and the [AttributeError] leaves
    [ask_agent] with [consecutive_errors] as it was. *)
Theorem ask_agent_raises_on_array_output (items : list json) (err : str) :
  ask_agent (Completed 0 (Some (JArr items)) err) text st
  = (Raised AttributeError, asked (turn_count st) (consecutive_errors st)).
Proof. reflexivity. Qed.

(** The same for a [null] result, and a [TypeError] for a payload whose
    text is a number. *)
Lemma parse_reply_null_result :
  parse_reply (Some (JObj [(Str.lit "result", JNull)])) = Raised AttributeError.
Proof. reflexivity. Qed.

Lemma parse_reply_number_text :
  parse_reply
    (Some (JObj [(Str.lit "result",
                  JObj [(Str.lit "payloads",
                         JArr [JObj [(Str.lit "text", JNum 5)]])])]))
  = Raised TypeError.
Proof. reflexivity. Qed.

(** Missing fields are read as an empty reply. *)
Lemma parse_reply_missing_fields : parse_reply (Some (JObj [])) = Returned [].
Proof. reflexivity. Qed.

(** C4, amended. After truncation and markdown stripping a successful
    reply has at most [MAX_REPLY_CHARS + 3] characters: the budget and the
    three characters of the ellipsis. *)
Theorem shaped_reply_bound (out : option json) (err reply : str) :
  parse_reply out = Returned reply -> reply <> [] ->
  exists shaped st',
    ask_agent (Completed 0 out err) text st = (Returned shaped, st') /\
    shaped = strip_markdown (truncate reply) /\
    Str.len shaped <= MAX_REPLY_CHARS + 3.
Proof.
  intros Hparse Hne. rewrite (ask_agent_success out err reply Hparse Hne).
  eexists _, _. split; [reflexivity|]. split; [reflexivity|].
  pose proof (strip_markdown_shrinks (truncate reply)).
  pose proof (truncate_bound reply). unfold Str.len in *. lia.
Qed.

End AgentFacts.

(** C4 as stated fails: 600 characters without a period come back as 500
    characters and the ellipsis, 503 in all. *)
Lemma shaped_reply_over_budget :
  fst (ask_agent (Completed 0 (agent_output [repeat "a"%char 600]) []) (Str.lit "hi") initial_state)
    = Returned (repeat "a"%char 500 ++ Str.lit "...")
  /\ ~ Str.len (repeat "a"%char 500 ++ Str.lit "...") <= MAX_REPLY_CHARS.
Proof. split; [vm_compute; reflexivity | vm_compute; congruence]. Qed.

Lemma shaped_reply_bound_witness :
  exists shaped st',
    ask_agent (Completed 0 (agent_output [reply_600]) []) (Str.lit "Tell me more.")
      initial_state = (Returned shaped, st') /\
    shaped = strip_markdown (truncate reply_600) /\
    Str.len shaped <= MAX_REPLY_CHARS + 3.
Proof.
  apply (shaped_reply_bound (Str.lit "Tell me more.") initial_state
           (agent_output [reply_600]) [] reply_600).
  - vm_compute. reflexivity.
  - discriminate.
Defined.

(** The end-to-end scenario: two payloads become one spoken sentence. *)
Example ask_agent_weather :
  fst (ask_agent
         (Completed 0 (agent_output [Str.lit "It's sunny"; Str.lit "and 70 degrees."]) [])
         (Str.lit "What's the weather?") initial_state)
  = Returned (Str.lit "It's sunny and 70 degrees.").
Proof. vm_compute. reflexivity. Qed.

(** ** Calibration *)

Lemma py_max_is_Qmax (a b : Q) : py_max a b = Qmax a b.
Proof.
  unfold py_max, Qmax, GenericMinMax.gmax.
  destruct (Qle_bool b a) eqn:Hle.
  - apply Qle_bool_iff in Hle. destruct (Qcompare_spec a b) as [H|H|H]; try reflexivity.
    exfalso. apply (Qlt_not_le _ _ H Hle).
  - destruct (Qcompare_spec a b) as [H|H|H]; try reflexivity.
    + assert (Qle_bool b a = true) by (apply Qle_bool_iff; rewrite H; apply Qle_refl). congruence.
    + assert (Qle_bool b a = true) by (apply Qle_bool_iff; now apply Qlt_le_weak). congruence.
Qed.

(** C9. Whatever the ambient loudness [r], calibration returns the larger
    of [3 r] and the floor 0.005, so never less than the floor; silence
    ([r = 0]) gives the floor itself. *)
Theorem calibrate_mic_max_floor (r : Q) :
  calibrate_mic r = Qmax (r * 3) THRESHOLD_FLOOR /\
  (calibrate_mic r == Qmax (3 * r) THRESHOLD_FLOOR)%Q /\
  (THRESHOLD_FLOOR <= calibrate_mic r)%Q /\
  calibrate_mic 0 = THRESHOLD_FLOOR.
Proof.
  unfold calibrate_mic. rewrite py_max_is_Qmax.
  split; [reflexivity|]. split; [|split; [apply Q.le_max_r | reflexivity]].
  now rewrite (Qmult_comm r 3).
Qed.

(** ** The utterance recorder *)

Section RecorderFacts.

Variable threshold : Q.

#[local] Abbreviation loop := (record_loop threshold).
#[local] Abbreviation closes := (closing threshold).

(** Once the loop has reached its [break], further frames are not read. *)
Lemma record_loop_stops (stream rest : list frame) :
  forall acc started silence chunks,
    loop stream acc started silence = Some chunks ->
    loop (stream ++ rest) acc started silence = Some chunks.
Proof.
  induction stream as [|f stream IH]; intros acc started silence chunks H;
    [discriminate|].
  cbn [record_loop app] in *.
  destruct (Qgt_bool (rms f) threshold); [now apply IH|].
  destruct started; [|now apply IH].
  destruct silence as [t0|]; [|now apply IH].
  destruct (Qgt_bool (now f - t0) SILENCE_DURATION); [exact H | now apply IH].
Qed.

(** After speech has started every frame before the closing one is kept. *)
Lemma record_loop_capturing (pre : list frame) (f : frame) :
  forall acc silence chunks,
    loop pre acc true silence = None ->
    loop (pre ++ [f]) acc true silence = Some chunks ->
    chunks = acc ++ map data pre /\ closes f.
Proof.
  induction pre as [|g pre IH]; intros acc silence chunks Hpre Hend.
  - cbn [record_loop app] in Hend. unfold closes.
    destruct (Qgt_bool (rms f) threshold); [discriminate|].
    destruct silence as [t0|]; [|discriminate].
    destruct (Qgt_bool (now f - t0) SILENCE_DURATION) eqn:Hlate; [|discriminate].
    injection Hend as <-. rewrite app_nil_r. eauto.
  - cbn [record_loop app map] in *.
    assert (Hcons : forall l, (acc ++ [data g]) ++ l = acc ++ data g :: l)
      by (intros l; now rewrite <- app_assoc).
    destruct (Qgt_bool (rms g) threshold).
    { destruct (IH _ _ _ Hpre Hend) as [-> Hf]. now rewrite Hcons. }
    destruct silence as [t0|].
    + destruct (Qgt_bool (now g - t0) SILENCE_DURATION); [discriminate|].
      destruct (IH _ _ _ Hpre Hend) as [-> Hf]. now rewrite Hcons.
    + destruct (IH _ _ _ Hpre Hend) as [-> Hf]. now rewrite Hcons.
Qed.

(** Before speech nothing is kept. *)
Lemma record_loop_idle (pre : list frame) (f : frame) :
  forall acc silence chunks,
    loop pre acc false silence = None ->
    loop (pre ++ [f]) acc false silence = Some chunks ->
    chunks = acc ++ map data (from_speech threshold pre) /\
    from_speech threshold pre <> [] /\ closes f.
Proof.
  induction pre as [|g pre IH]; intros acc silence chunks Hpre Hend.
  - cbn [record_loop app] in Hend.
    destruct (Qgt_bool (rms f) threshold); discriminate.
  - cbn [record_loop app from_speech] in *.
    destruct (Qgt_bool (rms g) threshold); [|now apply (IH _ _ _ Hpre Hend)].
    destruct (record_loop_capturing _ _ _ _ _ Hpre Hend) as [-> Hf].
    cbn [map]. rewrite <- app_assoc.
    split; [reflexivity|]. split; [discriminate | exact Hf].
Qed.

(** C5, amended. When the closing frame [f] arrives (the loop has not
    ended on the frames before it and ends on it), [f] is a silence frame
    read more than [SILENCE_DURATION] after the silence timer was started,
    and recording stops at once: the utterance is made of the frames from
    the first speech frame up to the frame before [f]; the closing frame
    is not appended. *)
Theorem record_utterance_drops_closing_frame
    (pre : list frame) (f : frame) (rest : list frame) (st : state) :
  loop pre [] false None = None ->
  loop (pre ++ [f]) [] false None <> None ->
  let audio := concat (map data (from_speech threshold pre)) in
  closes f /\
  fst (record_utterance threshold (pre ++ f :: rest) st)
  = Returned (if Qgt_bool MIN_SPEECH_DURATION (duration audio) then None
              else Some audio).
Proof.
  intros Hpre Hend audio.
  destruct (loop (pre ++ [f]) [] false None) as [chunks|] eqn:Hloop; [|congruence].
  destruct (record_loop_idle _ _ _ _ _ Hpre Hloop) as (-> & Hne & Hf).
  split; [exact Hf|].
  apply (record_loop_stops _ rest) in Hloop.
  rewrite <- app_assoc in Hloop. cbn [app] in Hloop.
  unfold record_utterance, bind, get_state, emit, lift, ret.
  rewrite Hloop. cbn [app map].
  destruct (from_speech threshold pre) as [|g spoken]; [congruence|].
  cbn [map concatenate]. fold audio.
  now destruct (Qgt_bool MIN_SPEECH_DURATION _).
Qed.

End RecorderFacts.

Lemma record_utterance_drops_closing_frame_witness :
  closing quiet_room closing_frame /\
  fst (record_utterance (quiet_room)
         (spoken_then_silent ++ closing_frame :: []) initial_state)
  = Returned (Some (concat (map data spoken_then_silent))).
Proof.
  apply (record_utterance_drops_closing_frame (quiet_room)
           spoken_then_silent closing_frame [] initial_state).
  - reflexivity.
  - discriminate.
Defined.

(** C5 as stated fails: after half a second of speech and 1.6 s of
    silence the utterance holds the 21 frames before the closing one, not
    the closing frame. *)
Lemma closing_frame_not_appended :
  fst (record_utterance (quiet_room)
         (spoken_then_silent ++ [closing_frame]) initial_state)
  = Returned (Some (concat (map data spoken_then_silent)))
  /\ concat (map data spoken_then_silent)
     <> concat (map data (spoken_then_silent ++ [closing_frame])).
Proof.
  split.
  - reflexivity.
  - intros H. apply (f_equal (fun l => Z.of_nat (length l))) in H.
    vm_compute in H. discriminate.
Qed.

(** ** The transcription adapter *)

Section TranscribeFacts.

Variables (w : whisper_world) (audio : list Q) (st : state).

#[local] Abbreviation model_available := (model_available w st).

Ltac run_transcribe :=
  unfold transcribe;
  cbv [bind get_state set_files set_whisper_model emit ret raise unlink];
  cbn [turn_count consecutive_errors whisper_model files log].

Lemma transcribe_load_error (e : exn) :
  whisper_model st = false -> load_model w = Some e ->
  fst (transcribe w audio st) = Raised e /\
  files (snd (transcribe w audio st)) = files st.
Proof.
  intros Hnone Hload. run_transcribe. rewrite Hnone, Hload. now split.
Qed.

(** When the engine returns, the temporary file is gone. *)
Lemma transcribe_returns (text : str) :
  model_available -> engine w = inr text ->
  fst (transcribe w audio st) = Returned (Str.strip text) /\
  files (snd (transcribe w audio st)) !! tmp w = None.
Proof.
  intros Hmodel Hengine. run_transcribe. rewrite Hengine.
  destruct (whisper_model st) eqn:Hm.
  - unfold model_available in *. cbn. rewrite lookup_insert_eq. cbn. split; [reflexivity | apply lookup_delete_eq].
  - destruct Hmodel as [|Hload]; [congruence|]. rewrite Hload.
    cbn. rewrite lookup_insert_eq. cbn. split; [reflexivity | apply lookup_delete_eq].
Qed.

(** C7. The claim fails when the engine raises: the exception leaves
    [transcribe] before [os.unlink] is reached, and the temporary file is
    still on disk. *)
Theorem transcribe_leaves_file_when_engine_raises (e : exn) :
  model_available -> engine w = inl e ->
  fst (transcribe w audio st) = Raised e /\
  files (snd (transcribe w audio st)) !! tmp w = Some (wav_size audio).
Proof.
  intros Hmodel Hengine. run_transcribe. rewrite Hengine.
  destruct (whisper_model st) eqn:Hm.
  - cbn. split; [reflexivity | apply lookup_insert_eq].
  - destruct Hmodel as [|Hload]; [congruence|]. rewrite Hload.
    cbn. split; [reflexivity | apply lookup_insert_eq].
Qed.

End TranscribeFacts.

Lemma transcribe_leaves_file_when_engine_raises_witness :
  fst (transcribe failing_whisper (silence) initial_state) = Raised RuntimeError /\
  files (snd (transcribe failing_whisper (silence) initial_state))
    !! "/tmp/tmpk3v9.wav" = Some (wav_size (silence)).
Proof.
  apply (transcribe_leaves_file_when_engine_raises failing_whisper (silence)
           initial_state RuntimeError).
  - right. reflexivity.
  - reflexivity.
Defined.

(** ** The speech synthesis router *)

Section SpeakFacts.

Variables (cfg : config) (w : tts_world) (text : str).

Ltac run_speak :=
  cbv [speak_elevenlabs speak_openai speak_macos run_proc run_cmd unlink_quietly
       unlink try_finally try_except bind get_state set_files emit ret raise
       any_exception is_OSError missing_or_smaller exists_and_larger];
  cbn [turn_count consecutive_errors whisper_model files log fst snd].

(** Case analysis on what the outside world does, innermost test first. *)
Ltac case_step :=
  match goal with
  | |- context [<[?k := _]> _ !! ?k] => rewrite lookup_insert_eq
  | |- context [match ?x with _ => _ end] =>
      lazymatch x with
      | context [match _ with _ => _ end] => fail
      | _ => destruct x eqn:?
      end
  end;
  cbn [turn_count consecutive_errors whisper_model files log fst snd].

Ltac use_facts :=
  repeat match goal with
    | H : _ /\ _ |- _ => destruct H
    | H : exists _, _ |- _ => destruct H
    | H : Some _ = Some _ |- _ => injection H as H; subst
    | H : (_ <? _)%N = true |- _ => apply N.ltb_lt in H
    | H : (_ <? _)%N = false |- _ => apply N.ltb_ge in H
    end;
  try congruence; try lia.

Ltac close_case :=
  rewrite <- ?app_assoc; cbn [app];
  split; [reflexivity|]; eexists; split; [reflexivity|];
  cbn [requests says plays existsb is_listen orb];
  repeat match goal with |- _ /\ _ => split end;
  try reflexivity;
  try (first [left; reflexivity | right; reflexivity]);
  intros; use_facts; auto.

Lemma speak_macos_says (st : state) :
  fst (speak_macos w text st) = Returned tt /\
  log (snd (speak_macos w text st)) = log st ++ [Say text].
Proof. run_speak. destruct (say w); now split. Qed.

Lemma speak_openai_log (st : state) :
  fst (speak_openai w text st) = Returned tt /\
  exists acts,
    log (snd (speak_openai w text st)) = log st ++ Curl OpenAI (raw_path w) :: acts /\
    existsb is_listen acts = false /\
    requests acts = [] /\
    (says acts = [] \/ says acts = [text]) /\
    (response_undersized w st -> acts = [Say text]) /\
    (healthy w st -> says acts = [] /\ plays acts = [raw_path w]).
Proof.
  unfold response_undersized, healthy, response_size.
  run_speak. repeat case_step; close_case.
Qed.

Lemma speak_elevenlabs_log (st : state) :
  fst (speak_elevenlabs cfg w text st) = Returned tt /\
  exists acts,
    log (snd (speak_elevenlabs cfg w text st))
      = log st ++ Curl ElevenLabs (raw_path w) :: acts /\
    existsb is_listen acts = false /\
    requests acts = [] /\
    (says acts = [] \/ says acts = [text]) /\
    (response_undersized w st -> acts = [Say text]) /\
    (healthy w st ->
       says acts = [] /\ (plays acts = [raw_path w] \/ plays acts = [fast_path w])).
Proof.
  unfold response_undersized, healthy, response_size.
  run_speak. repeat case_step; close_case.
Qed.

Ltac close_fallback :=
  rewrite <- ?app_assoc; cbn [app];
  eexists; split; [reflexivity|];
  cbn [says];
  split; [reflexivity | intros; first [reflexivity | discriminate]].

(** Whether the local [say] follows a cloud request is decided by
    [cloud_failed]: each [except Exception] handler and the size check
    hand over to it, and nothing else does. *)
Lemma speak_openai_fallback (st : state) :
  exists acts,
    log (snd (speak_openai w text st)) = log st ++ Curl OpenAI (raw_path w) :: acts /\
    says acts = (if cloud_failed cfg OpenAI w st then [text] else []) /\
    (raised (proc_raises (curl w)) = true -> acts = [Say text]).
Proof.
  unfold cloud_failed, response_size.
  run_speak. cbv [orb andb negb raised]. repeat case_step; close_fallback.
Qed.

Lemma speak_elevenlabs_fallback (st : state) :
  exists acts,
    log (snd (speak_elevenlabs cfg w text st))
      = log st ++ Curl ElevenLabs (raw_path w) :: acts /\
    says acts = (if cloud_failed cfg ElevenLabs w st then [text] else []) /\
    (raised (proc_raises (curl w)) = true -> acts = [Say text]).
Proof.
  unfold cloud_failed, response_size.
  run_speak. cbv [orb andb negb raised]. repeat case_step; close_fallback.
Qed.

(** C8. [speak] returns without raising and asks exactly one backend, the
    first configured one: ElevenLabs, else OpenAI, else the local [say].
    A cloud backend is followed by no other cloud backend, and by the
    local [say] exactly when it failed: the request raised, its file is
    missing or undersized (< 1000 bytes), the re-encoding raised or the
    player raised.  Then [say] speaks the text once; when nothing failed
    it does not run.  After a request that raised, or that left a missing
    or undersized file, [say] is all that follows. *)
Theorem speak_attempts_one_backend (st : state) :
  fst (speak cfg w text st) = Returned tt /\
  exists acts,
    log (snd (speak cfg w text st)) = log st ++ acts /\
    requests acts = match chosen cfg with Some b => [b] | None => [] end /\
    (says acts = [] \/ says acts = [text]) /\
    (chosen cfg = None -> acts = [Say text]) /\
    (forall b, chosen cfg = Some b -> response_undersized w st ->
       acts = [Curl b (raw_path w); Say text]) /\
    (forall b, chosen cfg = Some b -> healthy w st ->
       says acts = [] /\ (plays acts = [raw_path w] \/ plays acts = [fast_path w])) /\
    (forall b, chosen cfg = Some b ->
       says acts = if cloud_failed cfg b w st then [text] else []) /\
    (forall b, chosen cfg = Some b -> raised (proc_raises (curl w)) = true ->
       acts = [Curl b (raw_path w); Say text]).
Proof.
  unfold speak, chosen.
  destruct (Str.truthy (ELEVENLABS_API_KEY cfg)).
  - destruct (speak_elevenlabs_log st) as (Hr & acts & Hlog & _ & Hreq & Hsay & Hsmall & Hok).
    destruct (speak_elevenlabs_fallback st) as (acts' & Hlog' & Hfail & Hcurl).
    assert (acts' = acts) as ->.
    { rewrite Hlog in Hlog'. apply app_inv_head in Hlog'. congruence. }
    split; [exact Hr|]. eexists. split; [exact Hlog|].
    cbn [requests says plays]. rewrite Hreq.
    split; [reflexivity|]. split; [exact Hsay|]. split; [discriminate|].
    split; [|split; [intros b _; exact Hok|split]].
    + intros b [= <-] Hu. now rewrite (Hsmall Hu).
    + intros b [= <-]. exact Hfail.
    + intros b [= <-] Hc. now rewrite (Hcurl Hc).
  - destruct (Str.truthy (OPENAI_API_KEY cfg)).
    + destruct (speak_openai_log st) as (Hr & acts & Hlog & _ & Hreq & Hsay & Hsmall & Hok).
      destruct (speak_openai_fallback st) as (acts' & Hlog' & Hfail & Hcurl).
      assert (acts' = acts) as ->.
      { rewrite Hlog in Hlog'. apply app_inv_head in Hlog'. congruence. }
      split; [exact Hr|]. eexists. split; [exact Hlog|].
      cbn [requests says plays]. rewrite Hreq.
      split; [reflexivity|]. split; [exact Hsay|]. split; [discriminate|].
      split; [|split; [|split]].
      * intros b [= <-] Hu. now rewrite (Hsmall Hu).
      * intros b _ Hh. destruct (Hok Hh) as [Hs Hp]. split; [exact Hs | now left].
      * intros b [= <-]. exact Hfail.
      * intros b [= <-] Hc. now rewrite (Hcurl Hc).
    + destruct (speak_macos_says st) as (Hr & Hlog).
      split; [exact Hr|]. eexists. split; [exact Hlog|].
      cbn [requests says plays].
      split; [reflexivity|]. split; [now right|]. split; [reflexivity|].
      repeat split; discriminate.
Qed.

(** [speak] never listens. *)
Lemma speak_log (st : state) :
  exists acts,
    log (snd (speak cfg w text st)) = log st ++ acts /\ existsb is_listen acts = false.
Proof.
  unfold speak.
  destruct (Str.truthy (ELEVENLABS_API_KEY cfg)).
  - destruct (speak_elevenlabs_log st) as (_ & acts & Hlog & Hl & _).
    eexists. split; [exact Hlog | exact Hl].
  - destruct (Str.truthy (OPENAI_API_KEY cfg)).
    + destruct (speak_openai_log st) as (_ & acts & Hlog & Hl & _).
      eexists. split; [exact Hlog | exact Hl].
    + destruct (speak_macos_says st) as (_ & Hlog).
      eexists. split; [exact Hlog | reflexivity].
Qed.

End SpeakFacts.

Lemma speak_attempts_one_backend_witness :
  (fst (speak only_elevenlabs empty_response (Str.lit "It's sunny.") initial_state)
     = Returned tt /\
   log (snd (speak only_elevenlabs empty_response (Str.lit "It's sunny.") initial_state))
     = [Curl ElevenLabs "/tmp/tmpa1.mp3"; Say (Str.lit "It's sunny.")]) /\
  log (snd (speak only_elevenlabs request_timeout (Str.lit "It's sunny.") initial_state))
    = [Curl ElevenLabs "/tmp/tmpa1.mp3"; Say (Str.lit "It's sunny.")] /\
  (exists acts,
     log (snd (speak only_openai broken_player (Str.lit "It's sunny.") initial_state))
       = acts /\
     requests acts = [OpenAI] /\ says acts = [Str.lit "It's sunny."]) /\
  (exists acts,
     log (snd (speak only_openai good_player (Str.lit "It's sunny.") initial_state))
       = acts /\
     requests acts = [OpenAI] /\ says acts = []).
Proof.
  split; [|split; [|split]].
  - destruct (speak_attempts_one_backend only_elevenlabs empty_response
                (Str.lit "It's sunny.") initial_state)
      as (Hr & acts & Hlog & _ & _ & _ & Hsmall & _).
    split; [exact Hr|]. rewrite Hlog.
    rewrite (Hsmall ElevenLabs); [reflexivity | reflexivity |].
    split; [reflexivity|]. cbn. lia.
  - destruct (speak_attempts_one_backend only_elevenlabs request_timeout
                (Str.lit "It's sunny.") initial_state)
      as (_ & acts & Hlog & _ & _ & _ & _ & _ & _ & Hcurl).
    rewrite Hlog.
    rewrite (Hcurl ElevenLabs); [reflexivity | reflexivity | reflexivity].
  - destruct (speak_attempts_one_backend only_openai broken_player
                (Str.lit "It's sunny.") initial_state)
      as (_ & acts & Hlog & Hreq & _ & _ & _ & _ & Hfail & _).
    exists acts. split; [exact Hlog|]. split; [exact Hreq|].
    exact (Hfail OpenAI eq_refl).
  - destruct (speak_attempts_one_backend only_openai good_player
                (Str.lit "It's sunny.") initial_state)
      as (_ & acts & Hlog & Hreq & _ & _ & _ & _ & Hfail & _).
    exists acts. split; [exact Hlog|]. split; [exact Hreq|].
    exact (Hfail OpenAI eq_refl).
Defined.

(** ** The turn loop *)

Section LoopFacts.

Variables (cfg : config) (threshold : Q).

Ltac case_geb :=
  repeat match goal with
    | |- context [?x >=? ?y] =>
        destruct (Z.geb_spec x y); cbn [turn_count consecutive_errors]
    end.

Lemma reset_checks_returns (st : state) :
  reset_checks cfg st = (Returned tt, checked cfg st).
Proof.
  unfold checked, reset_checks, bind, get_state, set_counters, ret.
  destruct (turn_count st >=? MAX_TURNS cfg); cbn [turn_count consecutive_errors];
    destruct (_ >=? 3); reflexivity.
Qed.

(** The reset checks touch the two counters only. *)
Lemma checked_frame (st : state) :
  log (checked cfg st) = log st /\ files (checked cfg st) = files st /\
  whisper_model (checked cfg st) = whisper_model st.
Proof.
  unfold checked, reset_checks, bind, get_state, set_counters, ret.
  destruct (turn_count st >=? MAX_TURNS cfg); cbn [turn_count consecutive_errors];
    destruct (_ >=? 3); now cbn.
Qed.

Lemma checked_counters (st : state) :
  (turn_count st >= MAX_TURNS cfg \/ consecutive_errors st >= 3 ->
   turn_count (checked cfg st) = 0 /\ consecutive_errors (checked cfg st) = 0) /\
  (turn_count st < MAX_TURNS cfg -> consecutive_errors st < 3 ->
   turn_count (checked cfg st) = turn_count st /\
   consecutive_errors (checked cfg st) = consecutive_errors st).
Proof.
  unfold checked, reset_checks, bind, get_state, set_counters, ret.
  case_geb; cbn; lia.
Qed.

Lemma checked_below_limits (st : state) :
  0 < MAX_TURNS cfg ->
  turn_count (checked cfg st) < MAX_TURNS cfg /\ consecutive_errors (checked cfg st) < 3.
Proof.
  intros Hmax.
  unfold checked, reset_checks, bind, get_state, set_counters, ret.
  case_geb; cbn; lia.
Qed.

(** The recorder logs its entry and touches nothing else. *)
Lemma record_utterance_frame (stream : list frame) (st : state) :
  let st' := snd (record_utterance threshold stream st) in
  log st' = log st ++ [Listen (turn_count st) (consecutive_errors st)] /\
  turn_count st' = turn_count st /\ consecutive_errors st' = consecutive_errors st.
Proof.
  unfold record_utterance, bind, get_state, emit, lift, ret.
  destruct (record_loop threshold stream [] false None) as [chunks|]; [|now cbn].
  destruct (concatenate chunks) as [audio| |]; [|now cbn..].
  now destruct (Qgt_bool MIN_SPEECH_DURATION (duration audio)).
Qed.

(** The transcriber leaves the counters alone and neither listens nor
    responds. *)
Lemma transcribe_frame (w : whisper_world) (audio : list Q) (st : state) :
  let st' := snd (transcribe w audio st) in
  turn_count st' = turn_count st /\ consecutive_errors st' = consecutive_errors st /\
  exists acts, log st' = log st ++ acts /\
    existsb is_listen acts = false /\ existsb is_response acts = false.
Proof.
  unfold transcribe.
  cbv [bind get_state set_files set_whisper_model emit ret raise unlink].
  cbn [turn_count consecutive_errors whisper_model files log].
  destruct (whisper_model st).
  - destruct (engine w) as [e|text]; cbn.
    + repeat split. now eexists.
    + rewrite lookup_insert_eq. cbn. repeat split. now eexists.
  - destruct (load_model w) as [e|]; cbn.
    + repeat split. now eexists.
    + destruct (engine w) as [e|text]; cbn.
      * repeat split. rewrite <- app_assoc. now eexists.
      * rewrite lookup_insert_eq. cbn. repeat split. rewrite <- app_assoc. now eexists.
Qed.

Lemma ask_agent_log (run : run_result) (text : str) (st : state) :
  log (snd (ask_agent run text st)) = log st ++ [Agent (VOICE_HINT ++ text)].
Proof.
  unfold ask_agent.
  cbv [bind try_except emit ret raise lift get_state set_counters count_error].
  cbn [turn_count consecutive_errors whisper_model files log].
  destruct run as [e|rc out err|rc e err|out e err].
  - now destruct e.
  - cbn. destruct (negb (rc =? 0)); [reflexivity|].
    destruct (read_reply (loads out)) as [reply|e|]; cbn.
    + now destruct (negb (Str.truthy reply)).
    + now destruct (is_parse_error e).
    + reflexivity.
  - cbn. destruct (negb (rc =? 0)); [reflexivity|].
    now destruct (is_parse_error e).
  - cbn. destruct (read_reply (loads out)) as [reply|e0|]; cbn.
    + now destruct (negb (Str.truthy reply)).
    + now destruct (is_parse_error e0).
    + reflexivity.
Qed.


#[local] Abbreviation entry st :=
  (Listen (turn_count (checked cfg st)) (consecutive_errors (checked cfg st))).

(** The body of an iteration enters the recorder once, first of all, with
    the counters the reset checks left. *)
Lemma turn_body_log (t : turn) (st : state) :
  exists acts,
    log (snd (turn_body cfg threshold t st)) = log st ++ entry st :: acts /\
    existsb is_listen acts = false.
Proof.
  destruct (checked_frame st) as (Hlog0 & _).
  unfold turn_body. unfold bind at 1. rewrite reset_checks_returns.
  pose proof (record_utterance_frame (stream t) (checked cfg st)) as (Hlog1 & _).
  rewrite Hlog0 in Hlog1. unfold bind at 1.
  destruct (record_utterance threshold (stream t) (checked cfg st))
    as [[[audio|]|e|] st1]; cbn [snd] in Hlog1;
    try (exists []; split; [exact Hlog1 | reflexivity]).
  pose proof (transcribe_frame (whisper t) audio st1) as (_ & _ & acts2 & Hlog2 & Hl2 & _).
  unfold bind at 1.
  destruct (transcribe (whisper t) audio st1) as [[text|e|] st2]; cbn [snd] in Hlog2;
    rewrite Hlog1, <- app_assoc in Hlog2; cbn [app] in Hlog2;
    try (exists acts2; split; [exact Hlog2 | exact Hl2]).
  destruct (ignored text); [exists acts2; split; [exact Hlog2 | exact Hl2]|].
  pose proof (ask_agent_log (agent t) text st2) as Hlog3.
  unfold bind.
  destruct (ask_agent (agent t) text st2) as [[reply|e|] st3]; cbn [snd] in Hlog3;
    rewrite Hlog2, <- app_assoc in Hlog3; cbn [app] in Hlog3;
    try (eexists; split; [exact Hlog3 | rewrite existsb_app, Hl2; reflexivity]).
  destruct (speak_log cfg (tts t) reply st3) as (acts4 & Hlog4 & Hl4).
  rewrite Hlog3, <- app_assoc in Hlog4. cbn [app] in Hlog4.
  rewrite <- app_assoc in Hlog4. cbn [app] in Hlog4.
  eexists. split; [exact Hlog4|].
  rewrite existsb_app, Hl2. cbn. exact Hl4.
Qed.

Lemma iteration_log (t : turn) (st : state) :
  exists acts,
    log (snd (iteration cfg threshold t st)) = log st ++ entry st :: acts /\
    existsb is_listen acts = false.
Proof.
  unfold iteration. destruct (interrupt t).
  - destruct (checked_frame st) as (Hlog0 & _).
    unfold bind at 1. rewrite reset_checks_returns.
    exists []. split; [|reflexivity]. cbn. now rewrite Hlog0.
  - destruct (turn_body_log t st) as (acts & Hlog & Hl).
    exists acts. split; [|exact Hl].
    unfold try_except, bind at 1.
    destruct (turn_body cfg threshold t st) as [[[]|e|] st1]; cbn [snd] in Hlog; exact Hlog.
Qed.

Lemma no_listen_ok (acts : list action) :
  existsb is_listen acts = false -> Forall (listen_ok cfg) acts.
Proof.
  induction acts as [|a acts IH]; intros H; [constructor|].
  cbn in H. apply orb_false_iff in H as [Ha Hacts].
  constructor; [|now apply IH]. now destruct a.
Qed.

(** The invariant over one iteration. *)
Lemma iteration_listen_ok (t : turn) (st : state) :
  0 < MAX_TURNS cfg ->
  Forall (listen_ok cfg) (log st) ->
  Forall (listen_ok cfg) (log (snd (iteration cfg threshold t st))).
Proof.
  intros Hmax Hst. destruct (iteration_log t st) as (acts & -> & Hl).
  apply Forall_app. split; [exact Hst|].
  constructor; [now apply checked_below_limits | now apply no_listen_ok].
Qed.

Lemma turn_loop_listen_ok (turns : list turn) :
  0 < MAX_TURNS cfg ->
  forall st,
    Forall (listen_ok cfg) (log st) ->
    Forall (listen_ok cfg) (log (snd (turn_loop cfg threshold turns st))).
Proof.
  intros Hmax. induction turns as [|t turns IH]; intros st Hst; [exact Hst|].
  cbn [turn_loop]. unfold bind.
  pose proof (iteration_listen_ok t st Hmax Hst) as Hnext.
  destruct (iteration cfg threshold t st) as [[[|]|e|] st1]; cbn [snd] in *;
    try exact Hnext.
  now apply IH.
Qed.

(** C2, amended. Provided [MAX_TURNS >= 1]: every time the recorder is
    entered, [turn_count < MAX_TURNS] and [consecutive_errors < 3]. For any
    [MAX_TURNS]: an iteration that starts with [turn_count >= MAX_TURNS] or
    [consecutive_errors >= 3] sets both counters to 0 before it enters the
    recorder. *)
Theorem recorder_entered_below_limits (turns : list turn) (st : state) :
  (0 < MAX_TURNS cfg ->
   Forall (listen_ok cfg) (log st) ->
   Forall (listen_ok cfg) (log (snd (turn_loop cfg threshold turns st)))) /\
  (forall t, turn_count st >= MAX_TURNS cfg \/ consecutive_errors st >= 3 ->
     (turn_count (checked cfg st) = 0 /\ consecutive_errors (checked cfg st) = 0) /\
     exists acts, log (snd (iteration cfg threshold t st)) = log st ++ Listen 0 0 :: acts).
Proof.
  split; [intros Hmax; now apply turn_loop_listen_ok|].
  intros t Hreset. destruct (iteration_log t st) as (acts & Hlog & _).
  destruct (proj1 (checked_counters st) Hreset) as [Ht He].
  split; [now split|]. rewrite Ht, He in Hlog. now exists acts.
Qed.

End LoopFacts.

(** The same over a whole run of [main]. *)
Lemma main_listen_ok (cfg : config) (ambient : Q) (prime : whisper_world) (turns : list turn) :
  0 < MAX_TURNS cfg ->
  Forall (listen_ok cfg) (log (snd (main cfg ambient prime turns initial_state))).
Proof.
  intros Hmax. unfold main, bind.
  pose proof (transcribe_frame prime silence initial_state)
    as (_ & _ & acts & Hlog & Hl & _).
  destruct (transcribe prime silence initial_state) as [[text|e|] st1];
    cbn [snd] in *; rewrite ?Hlog; try now apply (no_listen_ok cfg).
  apply turn_loop_listen_ok; [exact Hmax|]. rewrite Hlog. now apply (no_listen_ok cfg).
Qed.


Section DiscardFacts.

Variables (cfg : config) (threshold : Q).

(** What the loop ignores: the empty transcript and, whatever the case of
    its letters, a transcript on the denylist. *)
Lemma ignored_iff (text : str) :
  ignored text = true <->
  text = [] \/ In (Str.strip (Str.lower text)) HALLUCINATIONS.
Proof.
  unfold ignored, Str.mem. rewrite orb_true_iff, existsb_exists. split.
  - intros [Hempty | (x & Hin & Heq)].
    + left. now destruct text.
    + right. unfold Str.eqb in Heq. apply bool_decide_eq_true in Heq. now subst.
  - intros [-> | Hin]; [now left|].
    right. eexists. split; [exact Hin|]. now apply bool_decide_eq_true.
Qed.

Example ignores_any_case : ignored (Str.lit "Thanks for watching!") = true.
Proof. reflexivity. Qed.

Example heeds_speech : ignored (Str.lit "What's the weather?") = false.
Proof. reflexivity. Qed.

(** A discarding iteration ends after the recorder or the transcriber. *)
Lemma discarding_iteration (t : turn) (st : state) :
  interrupt t = false ->
  discards cfg threshold t st ->
  exists st' acts,
    iteration cfg threshold t st = (Returned Continue, st') /\
    turn_count st' = turn_count (checked cfg st) /\
    consecutive_errors st' = consecutive_errors (checked cfg st) /\
    log st' = log st ++ Listen (turn_count st') (consecutive_errors st') :: acts /\
    existsb is_response acts = false.
Proof.
  intros Hint Hdis. unfold discards in Hdis. unfold iteration. rewrite Hint.
  unfold try_except, turn_body. unfold bind at 1 2. rewrite reset_checks_returns.
  destruct (checked_frame cfg st) as (Hlog0 & _).
  pose proof (record_utterance_frame threshold (stream t) (checked cfg st))
    as (Hlog1 & Ht1 & He1).
  rewrite Hlog0 in Hlog1. unfold bind at 1.
  destruct (record_utterance threshold (stream t) (checked cfg st))
    as [[[audio|]|e|] st1]; cbn [snd] in *; try contradiction.
  - pose proof (transcribe_frame (whisper t) audio st1)
      as (Ht2 & He2 & acts & Hlog2 & _ & Hr2).
    unfold bind at 1.
    destruct (transcribe (whisper t) audio st1) as [[text|e|] st2];
      cbn [fst snd] in *; try contradiction.
    rewrite Hdis. cbn.
    exists st2, acts.
    split; [reflexivity|]. split; [congruence|]. split; [congruence|].
    split; [|exact Hr2].
    rewrite Hlog2, Hlog1, <- app_assoc, Ht2, He2, Ht1, He1. reflexivity.
  - cbn. exists st1, [].
    split; [reflexivity|]. split; [congruence|]. split; [congruence|].
    split; [|reflexivity]. rewrite Hlog1, Ht1, He1. reflexivity.
Qed.

(** C10. An iteration that discards its input (the recorder returns
    [None], or the transcript is empty or matches the denylist
    case-insensitively) calls neither the agent nor the synthesis, and the
    discard leaves both counters alone: the iteration ends with the
    counters with which the recorder was entered, which are the counters
    it started with unless its reset checks had a reset to make. *)
Theorem discarded_input_keeps_counters (t : turn) (st : state) :
  interrupt t = false ->
  discards cfg threshold t st ->
  exists st' acts,
    iteration cfg threshold t st = (Returned Continue, st') /\
    log st' = log st ++ Listen (turn_count st') (consecutive_errors st') :: acts /\
    existsb is_response acts = false /\
    turn_count st' = turn_count (checked cfg st) /\
    consecutive_errors st' = consecutive_errors (checked cfg st) /\
    (turn_count st < MAX_TURNS cfg -> consecutive_errors st < 3 ->
     turn_count st' = turn_count st /\ consecutive_errors st' = consecutive_errors st).
Proof.
  intros Hint Hdis.
  destruct (discarding_iteration t st Hint Hdis) as (st' & acts & Hrun & Ht & He & Hlog & Hr).
  exists st', acts. repeat split; try assumption.
  - rewrite Ht. now apply checked_counters.
  - rewrite He. now apply checked_counters.
Qed.

End DiscardFacts.

Lemma recorder_entered_below_limits_witness :
  Forall (listen_ok two_turns)
    (log (snd (turn_loop two_turns quiet_room busy_run initial_state))) /\
  listens (log (snd (turn_loop two_turns quiet_room busy_run initial_state)))
    = [(0, 0); (1, 0); (0, 0); (1, 0); (1, 1); (1, 2); (0, 0)] /\
  (turn_count (checked two_turns after_three_errors) = 0 /\
   consecutive_errors (checked two_turns after_three_errors) = 0) /\
  exists acts,
    log (snd (iteration two_turns quiet_room weather_turn after_three_errors))
    = log after_three_errors ++ Listen 0 0 :: acts.
Proof.
  split; [|split; [vm_compute; reflexivity|]].
  - apply (recorder_entered_below_limits two_turns quiet_room busy_run initial_state).
    + reflexivity.
    + constructor.
  - apply (recorder_entered_below_limits two_turns quiet_room [] after_three_errors).
    left. cbn. lia.
Defined.

(** C2 as stated fails for [MAX_TURNS = 0]: the recorder is entered with
    [turn_count = 0], which is not below the limit. *)
Lemma recorder_entered_at_zero_limit :
  log (snd (iteration zero_turns quiet_room cough_turn initial_state)) = [Listen 0 0] /\
  ~ listen_ok zero_turns (Listen 0 0).
Proof. split; [reflexivity | cbn; lia]. Qed.

Lemma discarded_input_keeps_counters_witness :
  exists st' acts,
    iteration default_config quiet_room thanks_turn after_two_errors
      = (Returned Continue, st') /\
    log st' = log after_two_errors ++ Listen 7 2 :: acts /\
    existsb is_response acts = false /\
    turn_count st' = 7 /\ consecutive_errors st' = 2.
Proof.
  destruct (discarded_input_keeps_counters default_config quiet_room thanks_turn
              after_two_errors)
    as (st' & acts & Hrun & Hlog & Hr & _ & _ & Hsame);
    [reflexivity | vm_compute; reflexivity |].
  destruct Hsame as [Ht He]; [reflexivity | reflexivity |].
  rewrite Ht, He in Hlog. exists st', acts.
  split; [exact Hrun|]. split; [exact Hlog|]. split; [exact Hr|].
  split; [exact Ht | exact He].
Defined.

(** The reset checks at the top of the same iteration are not the
    discard's doing: after three failures they clear both counters before
    the recorder is entered, and a discarded burst of noise leaves them
    at 0. *)
Lemma discarded_input_after_errors :
  discards default_config quiet_room cough_turn after_three_errors /\
  fst (iteration default_config quiet_room cough_turn after_three_errors)
    = Returned Continue /\
  listens (log (snd (iteration default_config quiet_room cough_turn after_three_errors)))
    = [(0, 0)] /\
  turn_count (snd (iteration default_config quiet_room cough_turn after_three_errors)) = 0 /\
  consecutive_errors (snd (iteration default_config quiet_room cough_turn after_three_errors))
    = 0.
Proof.
  split; [vm_compute; exact I|].
  split; [reflexivity|]. split; [reflexivity|]. split; reflexivity.
Qed.

(** ** Further properties *)

(** *** Text *)

Section TextMore.

Lemma replace_scan_sublist (old s : str) :
  forall skip, sublist (Str.replace_scan old [] skip s) s.
Proof.
  induction s as [|c s IH]; intros skip; cbn [Str.replace_scan]; [constructor|].
  destruct skip as [|k]; [|apply sublist_cons, IH].
  destruct (Str.startswith old (c :: s)); cbn [app].
  - apply sublist_cons, IH.
  - apply sublist_skip, IH.
Qed.

Lemma replace_sublist (old s : str) : sublist (Str.replace old [] s) s.
Proof.
  destruct old as [|o old]; [now rewrite replace_empty_old|].
  apply replace_scan_sublist.
Qed.

(** X11. Stripping only removes characters: what is left is a
    subsequence of the text. *)
Theorem strip_markdown_only_removes (s : str) : sublist (strip_markdown s) s.
Proof.
  rewrite strip_markdown_eq.
  repeat (etransitivity; [apply replace_sublist|]). reflexivity.
Qed.

Lemma replace_scan_present (old s : str) :
  Str.contains old s = true -> s <> [] ->
  (length (Str.replace_scan old [] 0 s) < length s)%nat.
Proof.
  induction s as [|c s IH]; intros Hin Hne; [congruence|].
  cbn [Str.contains] in Hin. cbn [Str.replace_scan].
  destruct (Str.startswith old (c :: s)) eqn:Hhd; cbn [app length].
  - pose proof (replace_scan_shrinks old s (length old - 1)). lia.
  - cbn in Hin. destruct s as [|c' s'].
    + cbn in Hin. destruct old; [discriminate Hhd | discriminate Hin].
    + specialize (IH Hin ltac:(discriminate)). lia.
Qed.

Lemma replace_present (old s : str) :
  old <> [] -> Str.contains old s = true ->
  (length (Str.replace old [] s) < length s)%nat.
Proof.
  intros Hold Hin. destruct old as [|o old]; [congruence|].
  apply replace_scan_present; [exact Hin|].
  destruct s; [discriminate Hin | discriminate].
Qed.

(** X12. Stripping changes a text exactly when the text contains one of
    the five markers. *)
Theorem strip_markdown_fixed_point (s : str) :
  strip_markdown s = s <->
  forallb (fun m => negb (Str.contains m s)) MARKDOWN = true.
Proof.
  unfold MARKDOWN. cbn [forallb]. rewrite !andb_true_iff, !negb_true_iff. split.
  - intros Hfix. apply (f_equal (@length ascii)) in Hfix.
    rewrite strip_markdown_eq in Hfix.
    assert (Hstep : forall m t, m <> [] -> forall r, r = Str.replace m [] t ->
              (length r < length t)%nat \/ (Str.contains m t = false /\ r = t)).
    { intros m t Hm r ->. destruct (Str.contains m t) eqn:Hc.
      - left. now apply replace_present.
      - right. split; [reflexivity | now apply replace_absent]. }
    pose proof (replace_shrinks (Str.lit "**") s) as L1.
    pose proof (replace_shrinks (Str.lit "```") (Str.replace (Str.lit "**") [] s)) as L2.
    pose proof (replace_shrinks (Str.lit "`")
                  (Str.replace (Str.lit "```") [] (Str.replace (Str.lit "**") [] s))) as L3.
    pose proof (replace_shrinks (Str.lit "- ")
                  (Str.replace (Str.lit "`") []
                     (Str.replace (Str.lit "```") [] (Str.replace (Str.lit "**") [] s)))) as L4.
    pose proof (replace_shrinks (Str.lit "* ")
                  (Str.replace (Str.lit "- ") []
                     (Str.replace (Str.lit "`") []
                        (Str.replace (Str.lit "```") []
                           (Str.replace (Str.lit "**") [] s))))) as L5.
    set (r1 := Str.replace (Str.lit "**") [] s) in *.
    set (r2 := Str.replace (Str.lit "```") [] r1) in *.
    set (r3 := Str.replace (Str.lit "`") [] r2) in *.
    set (r4 := Str.replace (Str.lit "- ") [] r3) in *.
    destruct (Hstep (Str.lit "**") s ltac:(discriminate) r1 eq_refl) as [?|[C1 E1]]; [lia|].
    destruct (Hstep (Str.lit "```") r1 ltac:(discriminate) r2 eq_refl) as [?|[C2 E2]]; [lia|].
    destruct (Hstep (Str.lit "`") r2 ltac:(discriminate) r3 eq_refl) as [?|[C3 E3]]; [lia|].
    destruct (Hstep (Str.lit "- ") r3 ltac:(discriminate) r4 eq_refl) as [?|[C4 E4]]; [lia|].
    destruct (Hstep (Str.lit "* ") r4 ltac:(discriminate) _ eq_refl) as [?|[C5 E5]]; [lia|].
    repeat split; congruence.
  - intros (H1 & H2 & H3 & H4 & H5 & _). rewrite strip_markdown_eq.
    rewrite (replace_absent _ s H1), (replace_absent _ s H2),
      (replace_absent _ s H3), (replace_absent _ s H4).
    now apply replace_absent.
Qed.

End TextMore.

Section TruncateMore.

Lemma firstn_snoc (s : str) :
  forall k c, nth_error s k = Some c -> firstn (S k) s = firstn k s ++ [c].
Proof.
  induction s as [|x s IH]; intros [|k] c H; try discriminate.
  - now injection H as ->.
  - cbn [firstn app]. f_equal. now apply IH.
Qed.

(** X10. A reply over the budget becomes a prefix of itself that ends on
    one of its own periods (the period included, nothing appended), with
    more than half the budget kept before the period, or its first
    [MAX_REPLY_CHARS] characters followed by the ellipsis. *)
Theorem truncate_ends_on_period_or_ellipsis (reply : str) :
  Str.len reply > MAX_REPLY_CHARS ->
  exists body,
    body `prefix_of` reply /\
    ((truncate reply = body ++ ["."%char] /\
      truncate reply `prefix_of` reply /\
      MAX_REPLY_CHARS / 2 < Str.len body < MAX_REPLY_CHARS) \/
     (truncate reply = body ++ Str.lit "..." /\ Str.len body = MAX_REPLY_CHARS)).
Proof.
  intros Hlen. pose proof (slice_to_length reply Hlen) as Hcut.
  unfold truncate.
  destruct (Z.gtb_spec (Str.len reply) MAX_REPLY_CHARS) as [_|]; [|lia].
  assert (Hpre : Str.slice_to MAX_REPLY_CHARS reply `prefix_of` reply).
  { unfold Str.slice_to, MAX_REPLY_CHARS. change (500 <? 0) with false. cbv iota.
    exists (skipn (Z.to_nat 500) reply). now rewrite firstn_skipn. }
  unfold Str.rfind. change (Str.lit ".") with ["."%char].
  destruct (rfind_scan_char "." (Str.slice_to MAX_REPLY_CHARS reply) 0 (-1))
    as [[-> _] | (k & -> & Hk & _)].
  - change (-1 >? MAX_REPLY_CHARS / 2) with false. cbv iota.
    eexists. split; [exact Hpre|]. right. split; [reflexivity|].
    unfold Str.len. rewrite Hcut. reflexivity.
  - assert (Hlt : (k < length (Str.slice_to MAX_REPLY_CHARS reply))%nat)
      by (apply nth_error_Some; congruence).
    destruct (Z.gtb_spec (0 + Z.of_nat k) (MAX_REPLY_CHARS / 2)) as [Hhalf|Hhalf].
    + exists (firstn k (Str.slice_to MAX_REPLY_CHARS reply)). split.
      * etransitivity; [|exact Hpre].
        exists (skipn k (Str.slice_to MAX_REPLY_CHARS reply)). now rewrite firstn_skipn.
      * assert (Hcutk : Str.slice_to (0 + Z.of_nat k + 1)
                          (Str.slice_to MAX_REPLY_CHARS reply)
                        = firstn (S k) (Str.slice_to MAX_REPLY_CHARS reply)).
        { unfold Str.slice_to at 1.
          destruct (Z.ltb_spec (0 + Z.of_nat k + 1) 0); [lia|].
          now replace (Z.to_nat (0 + Z.of_nat k + 1)) with (S k) by lia. }
        left. rewrite Hcutk. split; [|split].
        -- now apply firstn_snoc.
        -- etransitivity; [|exact Hpre].
           exists (skipn (S k) (Str.slice_to MAX_REPLY_CHARS reply)).
           now rewrite firstn_skipn.
        -- unfold Str.len. rewrite length_firstn.
           unfold MAX_REPLY_CHARS in *. lia.
    + eexists. split; [exact Hpre|]. right. split; [reflexivity|].
      unfold Str.len. rewrite Hcut. reflexivity.
Qed.

End TruncateMore.

Lemma truncate_ends_on_period_or_ellipsis_witness :
  exists body,
    body `prefix_of` reply_600 /\
    ((truncate reply_600 = body ++ ["."%char] /\
      truncate reply_600 `prefix_of` reply_600 /\
      MAX_REPLY_CHARS / 2 < Str.len body < MAX_REPLY_CHARS) \/
     (truncate reply_600 = body ++ Str.lit "..." /\ Str.len body = MAX_REPLY_CHARS)).
Proof. apply truncate_ends_on_period_or_ellipsis. reflexivity. Defined.

(** *** Calibration and recording *)

(** X1. A louder room never gives a lower threshold. *)
Theorem calibrate_mic_monotone (r1 r2 : Q) :
  (r1 <= r2)%Q -> (calibrate_mic r1 <= calibrate_mic r2)%Q.
Proof.
  intros Hle. unfold calibrate_mic. rewrite !py_max_is_Qmax.
  apply Q.max_le_compat_r. apply Qmult_le_compat_r; [exact Hle | discriminate].
Qed.

Lemma calibrate_mic_monotone_witness :
  (calibrate_mic (1 # 1000) <= calibrate_mic (1 # 100))%Q.
Proof. apply calibrate_mic_monotone. discriminate. Defined.


Section RecorderMore.

Variable threshold : Q.

#[local] Abbreviation loop := (record_loop threshold).
#[local] Abbreviation loud f := (Qgt_bool (rms f) threshold).






Lemma record_loop_idle_prefix (quiet : list frame) :
  Forall (fun q => loud q = false) quiet ->
  forall s acc silence,
    loop (quiet ++ s) acc false silence = loop s acc false silence.
Proof.
  induction 1 as [|q quiet Hq _ IH]; intros s acc silence; [reflexivity|].
  cbn [app record_loop]. rewrite Hq. apply IH.
Qed.

(** X2. As long as no frame is louder than the threshold the recorder
    stays idle: it does not return, and it accumulates nothing.  Whatever
    the buffer and the silence timer hold, they are the same after the
    quiet frames as before them, so that a recording preceded by quiet
    frames is the recording without them. *)
Theorem recorder_waits_for_speech (stream : list frame) (st : state) :
  Forall (fun f => loud f = false) stream ->
  loop stream [] false None = None /\
  fst (record_utterance threshold stream st) = Hangs /\
  (forall rest acc silence,
     loop (stream ++ rest) acc false silence = loop rest acc false silence) /\
  (forall rest,
     record_utterance threshold (stream ++ rest) st
       = record_utterance threshold rest st).
Proof.
  intros Hquiet.
  assert (Hloop : loop stream [] false None = None).
  { rewrite <- (app_nil_r stream), record_loop_idle_prefix by exact Hquiet.
    reflexivity. }
  split; [exact Hloop|]. split; [|split].
  - unfold record_utterance, bind, get_state, emit, lift. now rewrite Hloop.
  - intros rest acc silence. now apply record_loop_idle_prefix.
  - intros rest. unfold record_utterance, bind, get_state, emit, lift.
    now rewrite record_loop_idle_prefix by exact Hquiet.
Qed.



End RecorderMore.

Lemma recorder_waits_for_speech_witness :
  record_loop quiet_room (map (tone (1 # 1000)) [1; 2; 3]) [] false None = None /\
  fst (record_utterance quiet_room (map (tone (1 # 1000)) [1; 2; 3]) initial_state)
    = Hangs /\
  record_utterance quiet_room (map (tone (1 # 1000)) [1; 2; 3] ++ brief_speech)
    initial_state
    = record_utterance quiet_room brief_speech initial_state.
Proof.
  destruct (recorder_waits_for_speech quiet_room (map (tone (1 # 1000)) [1; 2; 3])
              initial_state) as (Hloop & Hhangs & _ & Hsame).
  { repeat constructor. }
  split; [exact Hloop|]. split; [exact Hhangs|]. apply Hsame.
Defined.

Section RecorderTimer.

Variable threshold : Q.

#[local] Abbreviation loop := (record_loop threshold).
#[local] Abbreviation loud f := (Qgt_bool (rms f) threshold).



End RecorderTimer.


(** *** Transcription *)

Section TranscribeMore.

Variables (w : whisper_world) (audio : list Q) (st : state).

Ltac run_tr :=
  unfold transcribe;
  cbv [bind get_state set_files set_whisper_model emit ret raise unlink];
  cbn [turn_count consecutive_errors whisper_model files log].

(** What one call does to the model handle, the result and the log. *)
Lemma transcribe_cases :
  let r := transcribe w audio st in
  if whisper_model st then
    whisper_model (snd r) = true /\ log (snd r) = log st ++ [Whisper (tmp w)] /\
    fst r = match engine w with inl e => Raised e | inr text => Returned (Str.strip text) end
  else
    match load_model w with
    | Some e =>
        fst r = Raised e /\ whisper_model (snd r) = false /\
        log (snd r) = log st ++ [LoadModel] /\ files (snd r) = files st
    | None =>
        whisper_model (snd r) = true /\
        log (snd r) = log st ++ [LoadModel; Whisper (tmp w)] /\
        fst r = match engine w with inl e => Raised e | inr text => Returned (Str.strip text) end
    end.
Proof.
  run_tr. destruct (whisper_model st) eqn:Hm.
  - destruct (engine w); cbn; rewrite ?Hm; [now repeat split|].
    rewrite lookup_insert_eq. cbn. rewrite ?Hm. now repeat split.
  - destruct (load_model w); cbn; rewrite ?Hm; [now repeat split|].
    destruct (engine w); cbn; rewrite <- ?app_assoc; [now repeat split|].
    rewrite lookup_insert_eq. cbn. rewrite <- ?app_assoc. now repeat split.
Qed.

(** X5. [transcribe] touches no file but its temporary one, and when it
    returns the temporary file is gone: with a fresh name the files are
    what they were. *)
Theorem transcribe_files :
  let st' := snd (transcribe w audio st) in
  (forall p, p <> tmp w -> files st' !! p = files st !! p) /\
  (forall text, fst (transcribe w audio st) = Returned text ->
     files st' = delete (tmp w) (files st) /\
     (files st !! tmp w = None -> files st' = files st)).
Proof.
  run_tr. destruct (whisper_model st).
  - destruct (engine w); cbn.
    + split; [|discriminate]. intros p Hp. now apply lookup_insert_ne.
    + rewrite lookup_insert_eq. cbn. rewrite delete_insert_eq. split.
      * intros p Hp. now apply lookup_delete_ne.
      * intros _ _. split; [reflexivity | apply delete_id].
  - destruct (load_model w); cbn; [split; [reflexivity | discriminate]|].
    destruct (engine w); cbn.
    + split; [|discriminate]. intros p Hp. now apply lookup_insert_ne.
    + rewrite lookup_insert_eq. cbn. rewrite delete_insert_eq. split.
      * intros p Hp. now apply lookup_delete_ne.
      * intros _ _. split; [reflexivity | apply delete_id].
Qed.

End TranscribeMore.

(** X6. Once a call has got past loading the model, the next call does
    not load it again: it only runs the engine, whatever loading would
    have done. *)
Theorem transcribe_loads_model_once
    (w1 w2 : whisper_world) (a1 a2 : list Q) (st : state) :
  model_available w1 st ->
  let st1 := snd (transcribe w1 a1 st) in
  let r2 := transcribe w2 a2 st1 in
  whisper_model st1 = true /\
  log (snd r2) = log st1 ++ [Whisper (tmp w2)] /\
  fst r2 = match engine w2 with inl e => Raised e | inr text => Returned (Str.strip text) end.
Proof.
  intros Havail st1 r2.
  assert (H1 : whisper_model st1 = true).
  { pose proof (transcribe_cases w1 a1 st) as H. cbn zeta in H.
    destruct (whisper_model st) eqn:Hm; [apply H|].
    destruct Havail as [|Hload]; [congruence|]. rewrite Hload in H. apply H. }
  split; [exact H1|].
  pose proof (transcribe_cases w2 a2 st1) as H2. cbn zeta in H2. rewrite H1 in H2.
  split; apply H2.
Qed.

Lemma transcribe_loads_model_once_witness :
  let st1 := snd (transcribe failing_whisper silence initial_state) in
  let r2 := transcribe (hearing (Str.lit " Hello. ")) silence st1 in
  whisper_model st1 = true /\
  log (snd r2) = log st1 ++ [Whisper (tmp (hearing (Str.lit " Hello. ")))] /\
  fst r2 = match engine (hearing (Str.lit " Hello. ")) with
           | inl e => Raised e | inr text => Returned (Str.strip text) end.
Proof.
  apply (transcribe_loads_model_once failing_whisper (hearing (Str.lit " Hello. "))
           silence silence initial_state).
  right. reflexivity.
Defined.

(** *** The agent client *)

Section AgentMore.

Variables (text : str) (st : state).

Lemma lookup_first (key : str) (v : json) (rest : list (str * json)) :
  Py.lookup key ((key, v) :: rest) = Some v.
Proof.
  cbn [Py.lookup]. unfold Str.eqb. now rewrite bool_decide_eq_true_2.
Qed.

Lemma strings_of_strs (l : list str) : Py.strings (map JStr l) = Returned l.
Proof.
  induction l as [|s l IH]; [reflexivity|]. cbn [map Py.strings]. now rewrite IH.
Qed.

Lemma reply_parts_of_texts (texts : list str) :
  reply_parts (map (fun t => JObj [(Str.lit "text", JStr t)]) texts)
  = Returned (map JStr (List.filter Str.truthy texts)).
Proof.
  induction texts as [|t texts IH]; [reflexivity|].
  cbn [map reply_parts]. unfold Py.get. rewrite lookup_first. cbn [and_then Py.truthy].
  rewrite IH. cbn [List.filter and_then].
  destruct (Str.truthy t); reflexivity.
Qed.

(** X7. On output of the expected shape the reply is the non-empty
    payload texts, in order, joined by single spaces and trimmed. *)
Theorem parse_reply_joins_texts (texts : list str) :
  parse_reply (agent_output texts)
  = Returned (Str.strip (Str.join (Str.lit " ") (List.filter Str.truthy texts))).
Proof.
  unfold parse_reply, read_reply, agent_output. cbn [loads and_then].
  unfold Py.get at 1. rewrite lookup_first. cbn [and_then].
  unfold Py.get at 1. rewrite lookup_first. cbn [and_then Py.iter].
  rewrite reply_parts_of_texts. cbn [and_then].
  unfold Py.join. rewrite strings_of_strs. reflexivity.
Qed.

Lemma get_raises (v : json) (key : str) (d : json) (e : exn) :
  Py.get v key d = Raised e -> e = AttributeError.
Proof. destruct v; cbn; congruence. Qed.

Lemma get_never_hangs (v : json) (key : str) (d : json) : Py.get v key d <> Hangs.
Proof. destruct v; discriminate. Qed.

Lemma reply_parts_outcome (ps : list json) :
  match reply_parts ps with
  | Returned _ => True
  | Raised e => e = AttributeError
  | Hangs => False
  end.
Proof.
  induction ps as [|p ps IH]; [exact I|].
  cbn [reply_parts].
  destruct (Py.get p (Str.lit "text") JNull) as [t|e|] eqn:Ht; cbn [and_then].
  - destruct (Py.truthy t); [|exact IH].
    destruct (Py.get p (Str.lit "text") (JStr [])) as [x|e|] eqn:Hx; cbn [and_then].
    + destruct (reply_parts ps); cbn [and_then]; auto.
    + now apply get_raises in Hx.
    + now apply get_never_hangs in Hx.
  - now apply get_raises in Ht.
  - now apply get_never_hangs in Ht.
Qed.

Lemma strings_outcome (parts : list json) :
  match Py.strings parts with
  | Returned _ => True
  | Raised e => e = TypeError
  | Hangs => False
  end.
Proof.
  induction parts as [|p parts IH]; [exact I|].
  destruct p; cbn [Py.strings]; try reflexivity.
  destruct (Py.strings parts); cbn [and_then]; auto.
Qed.

(** What the reading of the decoded output can do: apart from what
    [json.loads] itself raises, only the [AttributeError] and [TypeError]
    of another shape. *)
Lemma read_reply_outcome (decoded : outcome json) :
  match read_reply decoded with
  | Returned _ => True
  | Raised e => decoded = Raised e \/ e = AttributeError \/ e = TypeError
  | Hangs => decoded = Hangs
  end.
Proof.
  unfold read_reply. destruct decoded as [data|e|]; cbn [and_then]; [|auto|auto].
  destruct (Py.get data (Str.lit "result") (JObj [])) as [result|e|] eqn:H1; cbn [and_then];
    [| apply get_raises in H1; auto | now apply get_never_hangs in H1].
  destruct (Py.get result (Str.lit "payloads") (JArr [])) as [payloads|e|] eqn:H2;
    cbn [and_then]; [| apply get_raises in H2; auto | now apply get_never_hangs in H2].
  destruct payloads; cbn [Py.iter and_then]; auto.
  all: match goal with |- context [reply_parts ?ps] =>
         pose proof (reply_parts_outcome ps) as Hp; destruct (reply_parts ps) as [parts|e|];
         cbn [and_then]; [| auto | contradiction] end.
  all: unfold Py.join; pose proof (strings_outcome parts) as Hs;
       destruct (Py.strings parts); cbn [and_then]; auto; contradiction.
Qed.

(** What the parsing of the agent's output can do. *)
Lemma parse_reply_outcome (out : option json) :
  match parse_reply out with
  | Returned _ => True
  | Raised e => e = JSONDecodeError \/ e = AttributeError \/ e = TypeError
  | Hangs => False
  end.
Proof.
  unfold parse_reply. pose proof (read_reply_outcome (loads out)) as H.
  destruct (read_reply (loads out)) as [reply|e|]; [exact I| |].
  - destruct H as [H|H]; [|now right].
    destruct out; [discriminate|]. injection H as <-. now left.
  - destruct out; discriminate.
Qed.

Ltac run_ask :=
  unfold ask_agent;
  cbv [bind try_except emit ret raise lift get_state set_counters count_error];
  cbn [turn_count consecutive_errors whisper_model files log fst snd].

Ltac close_ask :=
  cbn; eexists _, _; (split; [reflexivity|]); cbn;
  repeat match goal with |- _ /\ _ => split end; try reflexivity.

(** Every call asks the agent once and moves one counter at most, or,
    on a success, both: the turn is counted and the errors are cleared
    before the reply is printed. *)
Lemma ask_agent_frame (run : run_result) :
  exists r st',
    ask_agent run text st = (r, st') /\
    match r with
    | Returned reply =>
        (turn_count st' = turn_count st + 1 /\ consecutive_errors st' = 0) \/
        (turn_count st' = turn_count st /\
         consecutive_errors st' = consecutive_errors st + 1 /\
         In reply [TOO_LONG; HIT_ERROR; NOTHING_TO_SAY; PARSE_ERROR])
    | Raised e =>
        (turn_count st' = turn_count st /\
         consecutive_errors st' = consecutive_errors st) \/
        (turn_count st' = turn_count st + 1 /\ consecutive_errors st' = 0 /\
         exists out err reply,
           run = Unprintable out e err /\ parse_reply out = Returned reply /\
           Str.truthy reply = true)
    | Hangs => False
    end /\
    files st' = files st /\ whisper_model st' = whisper_model st /\
    log st' = log st ++ [Agent (VOICE_HINT ++ text)].
Proof.
  run_ask. destruct run as [e|rc out err|rc e err|out e err].
  - destruct e; close_ask; first [now left | right; repeat split; cbn; auto].
  - cbn. destruct (negb (rc =? 0)).
    { close_ask. right. repeat split. cbn. auto. }
    pose proof (parse_reply_outcome out) as Hp. unfold parse_reply in Hp.
    destruct (read_reply (loads out)) as [reply|e|]; [| |contradiction]; cbn.
    + destruct (negb (Str.truthy reply)); close_ask.
      * right. repeat split. cbn. auto.
      * now left.
    + destruct Hp as [-> | [-> | ->]]; close_ask;
        first [now left | right; repeat split; cbn; auto].
  - cbn. destruct (negb (rc =? 0)).
    { close_ask. right. repeat split. cbn. auto. }
    unfold read_reply. cbn [and_then].
    destruct e; close_ask; first [now left | right; repeat split; cbn; auto].
  - cbn. pose proof (parse_reply_outcome out) as Hp. unfold parse_reply in Hp.
    destruct (read_reply (loads out)) as [reply|e0|] eqn:Hread; [| |contradiction]; cbn.
    + destruct (Str.truthy reply) eqn:Htruthy; close_ask.
      * right. repeat split. exists out, err, reply. now repeat split.
      * right. repeat split. cbn. auto.
    + destruct Hp as [-> | [-> | ->]]; close_ask;
        first [now left | right; repeat split; cbn; auto].
Qed.

(** X8. Every call of [ask_agent] runs the agent once, with the voice
    hint before the user's words, and leaves files and model alone. A
    returned reply is a success (one more turn, errors at 0) or one of the
    four canned apologies (one more error).  An exception leaves both
    counters as they were, with one exception to that: when it is the
    [print] of a non-empty reply that raises, the turn has been counted
    and the errors cleared already. *)
Theorem ask_agent_counts_once (run : run_result) :
  let st' := snd (ask_agent run text st) in
  match fst (ask_agent run text st) with
  | Returned reply =>
      (turn_count st' = turn_count st + 1 /\ consecutive_errors st' = 0) \/
      (turn_count st' = turn_count st /\
       consecutive_errors st' = consecutive_errors st + 1 /\
       In reply [TOO_LONG; HIT_ERROR; NOTHING_TO_SAY; PARSE_ERROR])
  | Raised e =>
      (turn_count st' = turn_count st /\
       consecutive_errors st' = consecutive_errors st) \/
      (turn_count st' = turn_count st + 1 /\ consecutive_errors st' = 0 /\
       exists out err reply,
         run = Unprintable out e err /\ parse_reply out = Returned reply /\
         Str.truthy reply = true)
  | Hangs => False
  end /\
  files st' = files st /\ whisper_model st' = whisper_model st /\
  log st' = log st ++ [Agent (VOICE_HINT ++ text)].
Proof.
  destruct (ask_agent_frame run) as (r & st' & -> & H). exact H.
Qed.

(** X9. The only exceptions that leave [ask_agent]: what
    [subprocess.run] raises other than the timeout; what [json.loads]
    raises other than [JSONDecodeError], [KeyError] and [IndexError] (the
    [ValueError] of an integer of too many digits, [RecursionError]); the
    [AttributeError] or [TypeError] of output that decodes to another
    shape; and what the [print] of a non-empty reply raises.  The first
    three happen after exit status 0 only. *)
Theorem ask_agent_escaping_exceptions (run : run_result) (e : exn) :
  fst (ask_agent run text st) = Raised e ->
  (run = RunRaised e /\ e <> TimeoutExpired) \/
  (exists out err, run = Completed 0 out err /\ parse_reply out = Raised e /\
     (e = AttributeError \/ e = TypeError)) \/
  (exists err, run = Unreadable 0 e err /\ is_parse_error e = false) \/
  (exists out e0 err, run = Unprintable out e0 err /\
     ((parse_reply out = Raised e /\ (e = AttributeError \/ e = TypeError)) \/
      (e = e0 /\ exists reply,
         parse_reply out = Returned reply /\ Str.truthy reply = true))).
Proof.
  run_ask. destruct run as [e0|rc out err|rc e0 err|out e0 err].
  - destruct e0; cbn; intros [= <-]; left; split; congruence.
  - cbn. destruct (Z.eqb_spec rc 0) as [->|]; cbn; [|discriminate].
    pose proof (parse_reply_outcome out) as Hp. unfold parse_reply in *.
    destruct (read_reply (loads out)) as [reply|e0|] eqn:Hparse; [| |contradiction]; cbn.
    + destruct (negb (Str.truthy reply)); discriminate.
    + destruct Hp as [-> | [-> | ->]]; cbn; intros [= <-]; right; left; eauto 6.
  - cbn. destruct (Z.eqb_spec rc 0) as [->|]; cbn; [|discriminate].
    unfold read_reply. cbn [and_then].
    destruct e0; cbn; intros [= <-]; right; right; left; eauto.
  - cbn. pose proof (parse_reply_outcome out) as Hp. unfold parse_reply in *.
    destruct (read_reply (loads out)) as [reply|e1|] eqn:Hparse; [| |contradiction]; cbn.
    + destruct (Str.truthy reply) eqn:Htruthy; cbn; [|discriminate].
      intros [= <-]. right; right; right. exists out, e0, err.
      split; [reflexivity|]. right. split; [reflexivity|]. now exists reply.
    + destruct Hp as [-> | [-> | ->]]; cbn; intros [= <-]; right; right; right;
        exists out, e0, err; (split; [reflexivity|]); left; auto.
Qed.

End AgentMore.

Lemma ask_agent_escaping_exceptions_witness :
  fst (ask_agent (Unprintable (agent_output [Str.lit "It's sunny."])
                    UnicodeEncodeError [])
         (Str.lit "hi") initial_state) = Raised UnicodeEncodeError /\
  fst (ask_agent (Unreadable 0 ValueError []) (Str.lit "hi") initial_state)
    = Raised ValueError /\
  ((Unreadable 0 ValueError [] = RunRaised ValueError /\ ValueError <> TimeoutExpired) \/
   (exists out err, Unreadable 0 ValueError [] = Completed 0 out err /\
      parse_reply out = Raised ValueError /\
      (ValueError = AttributeError \/ ValueError = TypeError)) \/
   (exists err, Unreadable 0 ValueError [] = Unreadable 0 ValueError err /\
      is_parse_error ValueError = false) \/
   (exists out e0 err, Unreadable 0 ValueError [] = Unprintable out e0 err /\
      ((parse_reply out = Raised ValueError /\
        (ValueError = AttributeError \/ ValueError = TypeError)) \/
       (ValueError = e0 /\ exists reply,
          parse_reply out = Returned reply /\ Str.truthy reply = true)))).
Proof.
  split; [reflexivity|]. split; [reflexivity|].
  apply (ask_agent_escaping_exceptions (Str.lit "hi") initial_state
           (Unreadable 0 ValueError []) ValueError).
  reflexivity.
Defined.

(** *** Speech synthesis *)

Section SpeakMore.

Variables (cfg : config) (w : tts_world) (text : str).

Ltac run_speak :=
  cbv [speak_elevenlabs speak_openai speak_macos run_proc run_cmd unlink_quietly
       unlink try_finally try_except bind get_state set_files emit ret raise
       any_exception is_OSError missing_or_smaller exists_and_larger];
  cbn [turn_count consecutive_errors whisper_model files log fst snd].

Ltac case_step :=
  match goal with
  | |- context [<[?k := _]> _ !! ?k] => rewrite lookup_insert_eq
  | |- context [match ?x with _ => _ end] =>
      lazymatch x with
      | context [match _ with _ => _ end] => fail
      | _ => destruct x eqn:?
      end
  end;
  cbn [turn_count consecutive_errors whisper_model files log fst snd].

(** Lookups in what is left of the files after inserts and deletes. *)
Ltac solve_lookup :=
  repeat first
    [ assumption
    | reflexivity
    | rewrite lookup_delete_eq
    | rewrite lookup_insert_ne by congruence
    | rewrite lookup_delete_ne by congruence
    | rewrite lookup_delete
    | case_decide ].

Ltac close_frame :=
  repeat match goal with |- _ /\ _ => split end;
  try reflexivity; intros; solve_lookup.

Lemma speak_macos_frame (st : state) :
  let st' := snd (speak_macos w text st) in
  turn_count st' = turn_count st /\ consecutive_errors st' = consecutive_errors st /\
  whisper_model st' = whisper_model st /\ files st' = files st.
Proof. run_speak. now destruct (say w). Qed.

Lemma speak_openai_frame (st : state) :
  let st' := snd (speak_openai w text st) in
  turn_count st' = turn_count st /\ consecutive_errors st' = consecutive_errors st /\
  whisper_model st' = whisper_model st /\
  files st' !! raw_path w = None /\
  (forall p, p <> raw_path w -> files st' !! p = files st !! p).
Proof. run_speak. repeat case_step; close_frame. Qed.

Lemma speak_elevenlabs_frame (st : state) :
  let st' := snd (speak_elevenlabs cfg w text st) in
  turn_count st' = turn_count st /\ consecutive_errors st' = consecutive_errors st /\
  whisper_model st' = whisper_model st /\
  files st' !! raw_path w = None /\ files st' !! fast_path w = None /\
  (forall p, p <> raw_path w -> p <> fast_path w -> files st' !! p = files st !! p).
Proof. run_speak. repeat case_step; close_frame. Qed.

(** Every action of [speak] is part of the response. *)
Lemma speak_openai_responds (st : state) :
  exists acts, log (snd (speak_openai w text st)) = log st ++ acts /\
    forallb is_response acts = true.
Proof.
  run_speak. repeat case_step; rewrite <- ?app_assoc; eexists; split; reflexivity.
Qed.

Lemma speak_elevenlabs_responds (st : state) :
  exists acts, log (snd (speak_elevenlabs cfg w text st)) = log st ++ acts /\
    forallb is_response acts = true.
Proof.
  run_speak. repeat case_step; rewrite <- ?app_assoc; eexists; split; reflexivity.
Qed.

Lemma speak_frame (st : state) :
  let st' := snd (speak cfg w text st) in
  turn_count st' = turn_count st /\ consecutive_errors st' = consecutive_errors st /\
  whisper_model st' = whisper_model st /\
  exists acts, log st' = log st ++ acts /\ forallb is_response acts = true.
Proof.
  unfold speak.
  destruct (Str.truthy (ELEVENLABS_API_KEY cfg)).
  { pose proof (speak_elevenlabs_frame st) as H.
    pose proof (speak_elevenlabs_responds st). cbn zeta in *. tauto. }
  destruct (Str.truthy (OPENAI_API_KEY cfg)).
  { pose proof (speak_openai_frame st) as H.
    pose proof (speak_openai_responds st). cbn zeta in *. tauto. }
  pose proof (speak_macos_frame st) as H.
  destruct (speak_macos_says w text st) as (_ & Hlog). cbn zeta in *.
  repeat split; try tauto. exists [Say text]. now split.
Qed.

(** X13. Whatever the synthesis does, [speak] leaves both counters and
    the Whisper model as they were. *)
Theorem speak_keeps_counters (st : state) :
  let st' := snd (speak cfg w text st) in
  turn_count st' = turn_count st /\ consecutive_errors st' = consecutive_errors st /\
  whisper_model st' = whisper_model st.
Proof.
  pose proof (speak_frame st) as H. cbn zeta in *. tauto.
Qed.

(** X14. After [speak] the temporary files of the chosen backend are
    gone, on every path, and no other file has changed. *)
Theorem speak_leaves_no_temp_file (st : state) :
  let st' := snd (speak cfg w text st) in
  match chosen cfg with
  | Some ElevenLabs =>
      files st' !! raw_path w = None /\ files st' !! fast_path w = None
  | Some OpenAI => files st' !! raw_path w = None
  | None => files st' = files st
  end /\
  (forall p, p <> raw_path w -> p <> fast_path w -> files st' !! p = files st !! p).
Proof.
  unfold speak, chosen.
  destruct (Str.truthy (ELEVENLABS_API_KEY cfg)).
  { pose proof (speak_elevenlabs_frame st) as H. cbn zeta in *. tauto. }
  destruct (Str.truthy (OPENAI_API_KEY cfg)).
  { pose proof (speak_openai_frame st) as H. cbn zeta in *.
    split; [tauto|]. intros p Hp _. now apply H. }
  pose proof (speak_macos_frame st) as (_ & _ & _ & ->). now split.
Qed.

(** X15. When nothing fails, ElevenLabs plays one file: the downloaded
    one at speed 1, else the re-encoded one if it has more than 500 bytes
    and the downloaded one if not. *)
Theorem elevenlabs_plays_one_file (st : state) :
  chosen cfg = Some ElevenLabs -> healthy w st ->
  raw_path w <> fast_path w -> files st !! fast_path w = None ->
  exists acts,
    log (snd (speak cfg w text st)) = log st ++ Curl ElevenLabs (raw_path w) :: acts /\
    acts =
      if Qeq_bool (ELEVENLABS_SPEED cfg) 1 then [Afplay (raw_path w)]
      else [Ffmpeg (raw_path w) (fast_path w);
            Afplay (match proc_writes (ffmpeg w) with
                    | Some size => if (500 <? size)%N then fast_path w else raw_path w
                    | None => raw_path w
                    end)].
Proof.
  unfold chosen, speak, healthy, response_size.
  destruct (Str.truthy (ELEVENLABS_API_KEY cfg)); [intros _|now destruct (Str.truthy _)].
  intros (Hcurl & (size & Hsize & Hbig) & Hff & Hplay) Hne Hfresh.
  run_speak. rewrite Hcurl, Hff, Hplay.
  apply N.ltb_ge in Hbig.
  destruct (proc_writes (curl w)) as [n|];
    cbn [turn_count consecutive_errors whisper_model files log fst snd].
  - injection Hsize as ->. rewrite lookup_insert_eq, Hbig.
    destruct (Qeq_bool (ELEVENLABS_SPEED cfg) 1);
      cbn [negb turn_count consecutive_errors whisper_model files log fst snd].
    + repeat case_step; rewrite <- ?app_assoc; cbn [app]; eexists; split; reflexivity.
    + destruct (proc_writes (ffmpeg w)) as [m|];
        cbn [turn_count consecutive_errors whisper_model files log fst snd].
      * rewrite lookup_insert_eq. destruct (500 <? m)%N;
          repeat case_step; rewrite <- ?app_assoc; cbn [app]; eexists; split; reflexivity.
      * rewrite lookup_insert_ne, Hfresh by exact Hne.
        repeat case_step; rewrite <- ?app_assoc; cbn [app]; eexists; split; reflexivity.
  - rewrite Hsize, Hbig.
    destruct (Qeq_bool (ELEVENLABS_SPEED cfg) 1);
      cbn [negb turn_count consecutive_errors whisper_model files log fst snd].
    + repeat case_step; rewrite <- ?app_assoc; cbn [app]; eexists; split; reflexivity.
    + destruct (proc_writes (ffmpeg w)) as [m|];
        cbn [turn_count consecutive_errors whisper_model files log fst snd].
      * rewrite lookup_insert_eq. destruct (500 <? m)%N;
          repeat case_step; rewrite <- ?app_assoc; cbn [app]; eexists; split; reflexivity.
      * rewrite Hfresh.
        repeat case_step; rewrite <- ?app_assoc; cbn [app]; eexists; split; reflexivity.
Qed.

End SpeakMore.

(** *** The turn loop and [main] *)

Section LoopMore.

Variables (cfg : config) (threshold : Q).

Lemma speak_returns (w : tts_world) (text : str) (st : state) :
  fst (speak cfg w text st) = Returned tt.
Proof.
  unfold speak.
  destruct (Str.truthy (ELEVENLABS_API_KEY cfg)); [apply speak_elevenlabs_log|].
  destruct (Str.truthy (OPENAI_API_KEY cfg)); [apply speak_openai_log|].
  apply speak_macos_says.
Qed.

(** What the body of an iteration does to the counters, measured from the
    state in which the recorder is entered. *)
Lemma turn_body_counters (t : turn) (st : state) :
  let c := checked cfg st in
  exists r st',
    turn_body cfg threshold t st = (r, st') /\
    match r with
    | Raised e =>
        (turn_count st' = turn_count c /\ consecutive_errors st' = consecutive_errors c) \/
        (turn_count st' = turn_count c + 1 /\ consecutive_errors st' = 0 /\
         exists out err, agent t = Unprintable out e err)
    | _ =>
        (turn_count st' = turn_count c /\ consecutive_errors st' = consecutive_errors c) \/
        (turn_count st' = turn_count c + 1 /\ consecutive_errors st' = 0) \/
        (turn_count st' = turn_count c /\
         consecutive_errors st' = consecutive_errors c + 1)
    end.
Proof.
  intros c. subst c. unfold turn_body. unfold bind at 1. rewrite reset_checks_returns.
  pose proof (record_utterance_frame threshold (stream t) (checked cfg st))
    as (_ & Ht1 & He1).
  unfold bind at 1.
  destruct (record_utterance threshold (stream t) (checked cfg st))
    as [[[audio|]|e|] st1]; cbn [fst snd] in *;
    try (eexists _, _; split; [reflexivity|]; cbn; auto; fail).
  pose proof (transcribe_frame (whisper t) audio st1) as (Ht2 & He2 & _).
  unfold bind at 1.
  destruct (transcribe (whisper t) audio st1) as [[text|e|] st2]; cbn [fst snd] in *;
    try (eexists _, _; split; [reflexivity|]; cbn;
         left; split; congruence; fail).
  destruct (ignored text).
  { eexists _, _. split; [reflexivity|]. left; split; congruence. }
  destruct (ask_agent_frame text st2 (agent t)) as (r3 & st3 & Heq3 & Hask & _).
  unfold bind. rewrite Heq3.
  destruct r3 as [reply|e|]; cbn [fst snd] in *; [| | contradiction].
  - pose proof (speak_returns (tts t) reply st3) as Hret.
    pose proof (speak_frame cfg (tts t) reply st3) as (Ht4 & He4 & _).
    destruct (speak cfg (tts t) reply st3) as [r st4]; cbn [fst snd] in *. subst r.
    eexists _, _. split; [reflexivity|].
    destruct Hask as [[Ht He] | (Ht & He & _)]; [right; left | right; right];
      split; congruence.
  - eexists _, _. split; [reflexivity|].
    destruct Hask as [[Ht He] | (Ht & He & out & err & _ & Hrun & _)].
    + left. split; congruence.
    + right. split; [congruence|]. split; [congruence|]. now exists out, err.
Qed.

Lemma iteration_outcome (t : turn) (st : state) :
  match fst (iteration cfg threshold t st) with
  | Returned Break => interrupt t = true
  | Returned Continue => interrupt t = false
  | Raised _ => False
  | Hangs => interrupt t = false
  end.
Proof.
  unfold iteration. destruct (interrupt t).
  - unfold bind at 1. now rewrite reset_checks_returns.
  - unfold try_except, bind at 1.
    now destruct (turn_body cfg threshold t st) as [[[]|e|] st1].
Qed.

Lemma iteration_counters (t : turn) (st : state) :
  let c := checked cfg st in
  exists r st',
    iteration cfg threshold t st = (r, st') /\
    ((turn_count st' = turn_count c /\ consecutive_errors st' = consecutive_errors c) \/
     (turn_count st' = turn_count c + 1 /\ consecutive_errors st' = 0) \/
     (turn_count st' = turn_count c /\
      consecutive_errors st' = consecutive_errors c + 1) \/
     (turn_count st' = turn_count c + 1 /\ consecutive_errors st' = 1 /\
      exists out e err, agent t = Unprintable out e err)) /\
    (forall e, interrupt t = false -> fst (turn_body cfg threshold t st) = Raised e ->
       r = Returned Continue /\
       ((turn_count st' = turn_count c /\
         consecutive_errors st' = consecutive_errors c + 1) \/
        (turn_count st' = turn_count c + 1 /\ consecutive_errors st' = 1 /\
         exists out err, agent t = Unprintable out e err))).
Proof.
  intros c. subst c. unfold iteration. destruct (interrupt t).
  - unfold bind. rewrite reset_checks_returns. cbn. eexists _, _.
    split; [reflexivity|]. split; [now left | discriminate].
  - destruct (turn_body_counters t st) as (r & st1 & Heq & H).
    unfold try_except, bind. rewrite Heq.
    destruct r as [[]|e|]; cbn [fst snd any_exception].
    + eexists _, _. split; [reflexivity|]. split; [|discriminate].
      destruct H as [H|[H|H]]; auto.
    + cbv [count_error set_counters ret bind].
      cbn [fst snd turn_count consecutive_errors].
      eexists _, _. split; [reflexivity|]. cbn [turn_count consecutive_errors].
      destruct H as [[Ht He] | (Ht & He & out & err & Hrun)].
      * split; [right; right; left; split; [exact Ht | now rewrite He]|].
        intros e0 _ _. split; [reflexivity|]. left. split; [exact Ht | now rewrite He].
      * split.
        { right; right; right. split; [exact Ht|]. split; [now rewrite He|].
          now exists out, e, err. }
        intros e0 _ [= <-]. split; [reflexivity|]. right.
        split; [exact Ht|]. split; [now rewrite He|]. now exists out, err.
    + eexists _, _. split; [reflexivity|]. split; [|discriminate].
      destruct H as [H|[H|H]]; auto.
Qed.

(** X17. Measured from the counters with which the recorder is entered,
    an iteration leaves them alone, counts one turn and clears the errors,
    or counts one error; or, when the [print] of the agent's reply raises
    after the turn was counted, it counts the turn and leaves one error.
    An exception in its body makes it count one error and continue. *)
Theorem iteration_counts_at_most_once (t : turn) (st : state) :
  let c := checked cfg st in
  let st' := snd (iteration cfg threshold t st) in
  ((turn_count st' = turn_count c /\ consecutive_errors st' = consecutive_errors c) \/
   (turn_count st' = turn_count c + 1 /\ consecutive_errors st' = 0) \/
   (turn_count st' = turn_count c /\ consecutive_errors st' = consecutive_errors c + 1) \/
   (turn_count st' = turn_count c + 1 /\ consecutive_errors st' = 1 /\
    exists out e err, agent t = Unprintable out e err)) /\
  (forall e, interrupt t = false -> fst (turn_body cfg threshold t st) = Raised e ->
     fst (iteration cfg threshold t st) = Returned Continue /\
     ((turn_count st' = turn_count c /\
       consecutive_errors st' = consecutive_errors c + 1) \/
      (turn_count st' = turn_count c + 1 /\ consecutive_errors st' = 1 /\
       exists out err, agent t = Unprintable out e err))).
Proof.
  destruct (iteration_counters t st) as (r & st' & -> & H). exact H.
Qed.

Lemma checked_in_range (st : state) :
  0 < MAX_TURNS cfg ->
  0 <= turn_count st -> 0 <= consecutive_errors st ->
  0 <= turn_count (checked cfg st) < MAX_TURNS cfg /\
  0 <= consecutive_errors (checked cfg st) < 3.
Proof.
  intros Hmax Ht He. pose proof (checked_below_limits cfg st Hmax) as [Hlt1 Hlt2].
  destruct (checked_counters cfg st) as [Hreset Hkeep].
  destruct (Z_lt_ge_dec (turn_count st) (MAX_TURNS cfg));
    [destruct (Z_lt_ge_dec (consecutive_errors st) 3)|].
  - destruct (Hkeep ltac:(lia) ltac:(lia)). lia.
  - destruct (Hreset ltac:(lia)). lia.
  - destruct (Hreset ltac:(lia)). lia.
Qed.

Lemma iteration_in_bounds (t : turn) (st : state) :
  0 < MAX_TURNS cfg -> in_bounds cfg st ->
  in_bounds cfg (snd (iteration cfg threshold t st)).
Proof.
  unfold in_bounds. intros Hmax (Ht & He).
  pose proof (checked_in_range st Hmax ltac:(lia) ltac:(lia)) as Hc.
  destruct (iteration_counters t st) as (r & st' & -> & Hi & _). cbn [snd]. lia.
Qed.

(** X18. With [MAX_TURNS >= 1] the counters stay within their limits over
    the whole loop: [0 <= turn_count <= MAX_TURNS] and
    [0 <= consecutive_errors <= 3]. *)
Theorem counters_stay_in_bounds (turns : list turn) (st : state) :
  0 < MAX_TURNS cfg -> in_bounds cfg st ->
  in_bounds cfg (snd (turn_loop cfg threshold turns st)).
Proof.
  intros Hmax. revert st. induction turns as [|t turns IH]; intros st Hst; [exact Hst|].
  cbn [turn_loop]. unfold bind.
  pose proof (iteration_in_bounds t st Hmax Hst) as Hnext.
  destruct (iteration cfg threshold t st) as [[[|]|e|] st1]; cbn [snd] in *;
    try exact Hnext.
  now apply IH.
Qed.

(** X19. The loop never raises, and it returns only at the first turn
    that is interrupted. *)
Theorem turn_loop_ends_on_interrupt (turns : list turn) (st : state) :
  match fst (turn_loop cfg threshold turns st) with
  | Returned _ => exists before t after,
      turns = before ++ t :: after /\ interrupt t = true /\
      Forall (fun x => interrupt x = false) before
  | Raised _ => False
  | Hangs => True
  end.
Proof.
  revert st. induction turns as [|t turns IH]; intros st; [exact I|].
  cbn [turn_loop]. unfold bind.
  pose proof (iteration_outcome t st) as Hout.
  destruct (iteration cfg threshold t st) as [[[|]|e|] st1]; cbn [fst] in *;
    [| | contradiction | exact I].
  - specialize (IH st1). destruct (fst (turn_loop cfg threshold turns st1)); auto.
    destruct IH as (before & x & after & -> & Hx & Hbefore).
    exists (t :: before), x, after. split; [reflexivity|]. split; [exact Hx|].
    now constructor.
  - exists [], t, turns. split; [reflexivity|]. split; [exact Hout | constructor].
Qed.

End LoopMore.

Section MainMore.

Variables (cfg : config) (threshold : Q).

Lemma record_utterance_model (stream : list frame) (st : state) :
  whisper_model (snd (record_utterance threshold stream st)) = whisper_model st.
Proof.
  unfold record_utterance, bind, get_state, emit, lift, ret.
  destruct (record_loop threshold stream [] false None) as [chunks|]; [|reflexivity].
  destruct (concatenate chunks) as [audio| |]; [|reflexivity..].
  now destruct (Qgt_bool MIN_SPEECH_DURATION (duration audio)).
Qed.

Lemma responses_are_no_loads (acts : list action) :
  forallb is_response acts = true -> existsb is_load acts = false.
Proof.
  induction acts as [|a acts IH]; [reflexivity|]. cbn [forallb existsb].
  intros [Ha Hacts]%andb_true_iff. rewrite (IH Hacts). now destruct a.
Qed.

Ltac close_with Hm Hlog :=
  eexists _, _, _; (split; [reflexivity|]);
  cbv [count_error set_counters ret bind];
  cbn [any_exception whisper_model log fst snd];
  (split; [exact Hm|]); (split; [exact Hlog|]);
  cbn [existsb app is_load orb]; rewrite ?existsb_app; cbn [existsb is_load orb];
  first [reflexivity | assumption].

(** With the model loaded, an iteration keeps it and does not load it
    again. *)
Lemma iteration_keeps_model (t : turn) (st : state) :
  whisper_model st = true ->
  exists r st' acts,
    iteration cfg threshold t st = (r, st') /\
    whisper_model st' = true /\
    log st' = log st ++ acts /\ existsb is_load acts = false.
Proof.
  intros Hm. destruct (checked_frame cfg st) as (Hlog0 & _ & Hm0).
  rewrite Hm in Hm0.
  pose proof (record_utterance_frame threshold (stream t) (checked cfg st)) as (Hlog1 & _).
  pose proof (record_utterance_model (stream t) (checked cfg st)) as Hm1.
  rewrite Hlog0 in Hlog1. rewrite Hm0 in Hm1.
  unfold iteration. destruct (interrupt t).
  { unfold bind. rewrite reset_checks_returns. cbn. eexists _, _, _.
    split; [reflexivity|]. cbn. rewrite Hlog0. now repeat split. }
  unfold try_except, turn_body. unfold bind at 1 2. rewrite reset_checks_returns.
  unfold bind at 1.
  destruct (record_utterance threshold (stream t) (checked cfg st))
    as [[[audio|]|e|] st1]; cbn [snd] in *; try (close_with Hm1 Hlog1).
  pose proof (transcribe_cases (whisper t) audio st1) as Htr. cbn zeta in Htr.
  rewrite Hm1 in Htr. destruct Htr as (Hm2 & Hlog2 & _).
  rewrite Hlog1, <- app_assoc in Hlog2.
  unfold bind at 1.
  destruct (transcribe (whisper t) audio st1) as [[text|e|] st2]; cbn [snd] in *;
    try (close_with Hm2 Hlog2).
  destruct (ignored text); [close_with Hm2 Hlog2|].
  destruct (ask_agent_frame text st2 (agent t)) as (r3 & st3 & Heq3 & _ & _ & Hm3 & Hlog3).
  rewrite Hm2 in Hm3. rewrite Hlog2, <- app_assoc in Hlog3.
  unfold bind. rewrite Heq3.
  destruct r3 as [reply|e|]; try (close_with Hm3 Hlog3).
  pose proof (speak_frame cfg (tts t) reply st3) as (_ & _ & Hm4 & acts4 & Hlog4 & Hr4).
  rewrite Hm3 in Hm4. rewrite Hlog3, <- app_assoc in Hlog4.
  apply responses_are_no_loads in Hr4.
  destruct (speak cfg (tts t) reply st3) as [[[]|e|] st4]; cbn [snd] in *;
    close_with Hm4 Hlog4.
Qed.

Lemma turn_loop_keeps_model (turns : list turn) :
  forall st, whisper_model st = true ->
    exists acts, log (snd (turn_loop cfg threshold turns st)) = log st ++ acts /\
      existsb is_load acts = false.
Proof.
  induction turns as [|t turns IH]; intros st Hm.
  - exists []. split; [cbn; now rewrite app_nil_r | reflexivity].
  - cbn [turn_loop]. unfold bind.
    destruct (iteration_keeps_model t st Hm) as (r & st1 & acts & -> & Hm1 & Hlog & Hl).
    destruct r as [[|]|e|]; cbn [snd]; try (now exists acts).
    destruct (IH st1 Hm1) as (more & -> & Hmore).
    exists (acts ++ more). split; [now rewrite Hlog, app_assoc|].
    now rewrite existsb_app, Hl, Hmore.
Qed.

End MainMore.

(** X20. When the priming transcription succeeds, [main] loads the
    Whisper model exactly once, before anything else. *)
Theorem main_loads_model_once
    (cfg : config) (ambient : Q) (prime : whisper_world) (turns : list turn) (text : str) :
  load_model prime = None -> engine prime = inr text ->
  exists rest,
    log (snd (main cfg ambient prime turns initial_state))
      = LoadModel :: Whisper (tmp prime) :: rest /\
    existsb is_load rest = false.
Proof.
  intros Hload Hengine. unfold main, bind.
  pose proof (transcribe_cases prime silence initial_state) as H. cbn zeta in H.
  cbn [whisper_model initial_state] in H. rewrite Hload, Hengine in H.
  destruct H as (Hm & Hlog & Hr).
  destruct (transcribe prime silence initial_state) as [r st1]; cbn [fst snd] in *. subst r.
  destruct (turn_loop_keeps_model cfg (calibrate_mic ambient) turns st1 Hm)
    as (rest & -> & Hrest).
  exists rest. split; [now rewrite Hlog | exact Hrest].
Qed.

Lemma main_loads_model_once_witness :
  exists rest,
    log (snd (main default_config (1 # 100) (hearing []) [cough_turn; thanks_turn]
                initial_state))
      = LoadModel :: Whisper (tmp (hearing [])) :: rest /\
    existsb is_load rest = false.
Proof.
  apply (main_loads_model_once default_config (1 # 100) (hearing [])
           [cough_turn; thanks_turn] []); reflexivity.
Defined.

Section FilterMore.

Lemma lower_char_keeps_space (c : ascii) :
  Str.isspace c = true -> Str.lower_char c = c.
Proof.
  destruct c as [[] [] [] [] [] [] [] []]; vm_compute;
    intros H; first [reflexivity | discriminate H].
Qed.

Lemma lstrip_blank (s : str) : forallb Str.isspace s = true -> Str.lstrip s = [].
Proof.
  induction s as [|c s IH]; [reflexivity|]. cbn [forallb Str.lstrip].
  intros [Hc Hs]%andb_true_iff. rewrite Hc. now apply IH.
Qed.

Lemma lower_blank (s : str) : forallb Str.isspace s = true -> Str.lower s = s.
Proof.
  induction s as [|c s IH]; [reflexivity|]. cbn [forallb Str.lower map].
  intros [Hc Hs]%andb_true_iff. rewrite (lower_char_keeps_space c Hc).
  f_equal. now apply IH.
Qed.

(** X16. Transcripts that differ only in the case of their letters are
    treated alike, and a transcript of blanks is ignored. *)
Theorem ignored_is_blind_to_case_and_blanks (a b : str) :
  (Str.lower a = Str.lower b -> ignored a = ignored b) /\
  (forallb Str.isspace a = true -> ignored a = true).
Proof.
  split.
  - intros Heq. unfold ignored. rewrite Heq. f_equal. f_equal.
    apply (f_equal (@length ascii)) in Heq. unfold Str.lower in Heq.
    rewrite !length_map in Heq. destruct a, b; try reflexivity; discriminate.
  - intros Hblank. unfold ignored. rewrite (lower_blank a Hblank).
    unfold Str.strip. rewrite (lstrip_blank a Hblank). cbn. apply orb_true_r.
Qed.

End FilterMore.

Lemma ignored_is_blind_to_case_and_blanks_witness :
  ignored (Str.lit "THANK YOU.") = ignored (Str.lit "thank you.") /\
  ignored (Str.lit "   ") = true.
Proof.
  split.
  - apply (proj1 (ignored_is_blind_to_case_and_blanks _ _)). reflexivity.
  - apply (proj2 (ignored_is_blind_to_case_and_blanks (Str.lit "   ") [])). reflexivity.
Defined.

Lemma counters_stay_in_bounds_witness :
  in_bounds two_turns (snd (turn_loop two_turns quiet_room busy_run initial_state)) /\
  listens (log (snd (turn_loop two_turns quiet_room busy_run initial_state)))
    = [(0, 0); (1, 0); (0, 0); (1, 0); (1, 1); (1, 2); (0, 0)] /\
  turn_count (snd (turn_loop two_turns quiet_room busy_run initial_state)) = 1 /\
  consecutive_errors (snd (turn_loop two_turns quiet_room busy_run initial_state)) = 0.
Proof.
  split; [|split; [|split]]; [|reflexivity..].
  apply counters_stay_in_bounds; [reflexivity|].
  unfold in_bounds. cbn. lia.
Defined.

Lemma elevenlabs_plays_one_file_witness :
  exists acts,
    log (snd (speak brisk_elevenlabs good_response (Str.lit "It's sunny.") initial_state))
      = log initial_state ++ Curl ElevenLabs (raw_path good_response) :: acts /\
    acts =
      if Qeq_bool (ELEVENLABS_SPEED brisk_elevenlabs) 1
      then [Afplay (raw_path good_response)]
      else [Ffmpeg (raw_path good_response) (fast_path good_response);
            Afplay (match proc_writes (ffmpeg good_response) with
                    | Some size =>
                        if (500 <? size)%N then fast_path good_response
                        else raw_path good_response
                    | None => raw_path good_response
                    end)].
Proof.
  apply elevenlabs_plays_one_file.
  - reflexivity.
  - split; [reflexivity|]. split; [|split; reflexivity].
    exists 24000%N. split; [reflexivity | discriminate].
  - discriminate.
  - reflexivity.
Defined.
